(** * imgpkg: pulling bundles/images and packaging directory trees

    A shallow embedding of two source files of the repository:

    - [pkg/imgpkg/cmd/pull.go]    (module [Cmd]):   [PullOptions.Run],
      [getRefFromFlags], [rewriteImageLock];
    - [pkg/imgpkg/image/tar_image.go] (module [Image]): [TarImage.asFileImage],
      [createTarball], [addDirToTar], [addFileToTar], [isExcluded].

    Go's [error] is a message string ([nil] is [None]); a call that
    returns [(T, error)] is a [Result T].  Side effects are threaded
    through an explicit world by a small state-and-error monad. *)

From Stdlib Require Import ZArith List String Ascii Lia Bool.
From stdpp Require Import base gmap strings list fin_maps sorting.

Open Scope string_scope.
Open Scope Z_scope.
Open Scope list_scope.

(* ===================================================================== *)
(** ** Results and errors *)

Inductive Result (A : Type) : Type :=
| Ok (a : A)
| Err (msg : string).
Arguments Ok {A} a.
Arguments Err {A} msg.

(** Go's [error] interface value: [None] is [nil]. *)
Definition error := option string.

Definition isOk {A} (r : Result A) : bool :=
  match r with Ok _ => true | Err _ => false end.

(** [fmt.Errorf(prefix + "%s", err)] applied to the error of a result. *)
Definition wrapErr {A} (prefix : string) (r : Result A) : Result A :=
  match r with
  | Ok a => Ok a
  | Err e => Err (prefix +:+ e)
  end.

(** The line feed of the Go format strings. *)
Definition nl : string := String (ascii_of_nat 10) EmptyString.

(* ===================================================================== *)
(** ** pkg/imgpkg/cmd/pull.go *)

Module Cmd.

(** *** Data *)

Record PullOptions := {
  Image : string;        (* o.ImageFlags.Image *)
  Bundle : string;       (* o.BundleFlags.Bundle *)
  OutputPath : string;
  LockPath : string;
}.

(** [regname.Reference]: only [ref.Context().Name()] is used. *)
Record Reference := { Context_Name : string }.

(** [regname.Digest], the result of [regname.NewDigest]. *)
Record Digest := { DigestStr : string }.

Record v1_Manifest := { Annotations : gmap string string }.

(** An image as returned by [Images()]: the outcomes of its
    [Manifest()] and [Digest()] methods. *)
Record v1_Image := {
  Manifest : Result v1_Manifest;
  Digest_of : Result string;
}.

Record ImageLocation := {
  DigestRef : string;
  OriginalTag : string;
}.

Record ImageDesc := {
  Location : ImageLocation;    (* embedded struct ImageLocation *)
  Name : string;
  Metadata : string;
}.

Record ImageLock := {
  IL_ApiVersion : string;
  IL_Kind : string;
  IL_Images : list ImageDesc;  (* lockFile.Spec.Images *)
}.

Record BundleLock := {
  BL_ApiVersion : string;
  BL_Kind : string;
  BL_Image : ImageLocation;    (* bundleLock.Spec.Image *)
}.

(** *** The world: regular files on disk and the trace of effects *)

Inductive Event :=
| UILine (line : string)                          (* o.ui.BeginLinef *)
| EvReadFile (path : string)                      (* ioutil.ReadFile *)
| EvWriteFile (path data : string) (perm : Z)     (* ioutil.WriteFile *)
| EvImages (ref : Reference)                      (* NewImages(ref, registry).Images() *)
| EvGeneric (ref : Digest)                        (* registry.Generic *)
| EvRemoveAll (path : string)                     (* os.RemoveAll *)
| EvMkdirAll (path : string) (perm : Z)           (* os.MkdirAll *)
| EvAsDirectory (path : string).                  (* NewDirImage(...).AsDirectory() *)

Record World := {
  files : gmap string string;   (* path |-> bytes of the regular file *)
  events : list Event;
}.

(** *** Collaborators that live outside [pull.go]

    The registry, the reference parsers, the YAML codec, directory
    removal/creation and the directory materializer are other packages;
    the constants [BundleAnnotation], [BundleDir] and [ImageLockFile] are
    declared in other files of the repository. *)
Record Env := {
  BundleAnnotation : string;
  BundleDir : string;
  ImageLockFile : string;
  filepath_Join : list string -> string;
  ParseReference : string -> Result Reference;
  registry_Images : Reference -> Result (list v1_Image);
  registry_Generic : Digest -> error;
  ImageWithRepository : string -> string -> Result string;
  NewDigest : string -> Result Digest;
  Unmarshal_BundleLock : string -> Result BundleLock;
  Unmarshal_ImageLock : string -> Result ImageLock;
  Marshal_ImageLock : ImageLock -> Result string;
  os_RemoveAll : string -> gmap string string -> gmap string string * error;
  os_MkdirAll : string -> Z -> gmap string string -> gmap string string * error;
  AsDirectory : string -> v1_Image -> gmap string string -> gmap string string * error;
}.

(** *** State-and-error monad *)

Definition M (A : Type) : Type := World -> Result A * World.

Definition ret {A} (a : A) : M A := fun w => (Ok a, w).

Definition fail {A} (msg : string) : M A := fun w => (Err msg, w).

Definition bind {A B} (m : M A) (k : A -> M B) : M B :=
  fun w =>
    match m w with
    | (Ok a, w') => k a w'
    | (Err e, w') => (Err e, w')
    end.

Notation "x <- m ;; k" := (bind m (fun x => k))
  (at level 100, m at next level, right associativity).
Notation "m ;;; k" := (bind m (fun _ => k))
  (at level 100, right associativity).

Definition liftR {A} (r : Result A) : M A := fun w => (r, w).

(** An [error]-returning call: [nil] continues, otherwise the (wrapped)
    error is returned. *)
Definition check (prefix : string) (e : error) : M unit :=
  match e with
  | None => ret tt
  | Some msg => fail (prefix +:+ msg)
  end.

(** A call whose error is returned as [fmt.Errorf(prefix + "%s", err)]. *)
Definition wrapM {A} (prefix : string) (m : M A) : M A :=
  fun w => let '(r, w') := m w in (wrapErr prefix r, w').

Definition emit (ev : Event) : M unit :=
  fun w => (Ok tt, {| files := files w; events := events w ++ [ev] |}).

Definition BeginLinef (line : string) : M unit := emit (UILine line).

Definition ioutil_ReadFile (path : string) : M string :=
  emit (EvReadFile path) ;;;
  fun w =>
    match files w !! path with
    | Some data => (Ok data, w)
    | None => (Err ("open " +:+ path +:+ ": no such file or directory"), w)
    end.

(** The write replaces the whole content of the file; the store has no
    write faults. *)
Definition ioutil_WriteFile (path data : string) (perm : Z) : M unit :=
  emit (EvWriteFile path data perm) ;;;
  fun w => (Ok tt, {| files := <[path := data]> (files w); events := events w |}).

(** A removal, creation or extraction of the environment, run on the
    file store and recorded in the trace. *)
Definition fsCall (ev : Event)
    (op : gmap string string -> gmap string string * error) : M error :=
  emit ev ;;;
  fun w =>
    let '(fs', e) := op (files w) in
    (Ok e, {| files := fs'; events := events w |}).

Section WithEnv.
Context (E : Env).

(** *** getRefFromFlags (pull.go, lines 135-163) *)

(** The [for ... range] loop over the three flags, with the local [ref]. *)
Fixpoint pickRef (ss : list string) (ref : string) : Result string :=
  match ss with
  | [] => Ok ref
  | s :: rest =>
      if String.eqb s "" then pickRef rest ref
      else if negb (String.eqb ref "")
           then Err "Expected only one of image, bundle, or lock"
           else pickRef rest s
  end.

Definition getRefFromFlags (o : PullOptions) : M string :=
  ref <- liftR (pickRef [LockPath o; Image o; Bundle o] "") ;;
  if String.eqb ref "" then fail "Expected either image, bundle, or lock"
  else if String.eqb (LockPath o) "" then ret ref
  else
    lockBytes <- ioutil_ReadFile ref ;;
    bundleLock <- liftR (Unmarshal_BundleLock E lockBytes) ;;
    ret (DigestRef (BL_Image bundleLock)).

(** *** rewriteImageLock (pull.go, lines 165-212) *)

(** Modelled from the spec: [ReadImageLockFile] is defined in another file
    of the package; the spec's "read and decode the lock document from the
    materialized bundle directory". *)
Definition ReadImageLockFile (path : string) : M ImageLock :=
  bytes <- ioutil_ReadFile path ;;
  liftR (Unmarshal_ImageLock E bytes).

(** How the [for ... range lockFile.Spec.Images] loop is left. *)
Inductive LoopExit :=
| Completed (newImgDescs : list ImageDesc)   (* fell off the end of the loop *)
| ReturnedNil.                               (* [return nil] inside the loop *)

Fixpoint relocateLoop (bundleRepo : string) (imgs : list ImageDesc)
    (newImgDescs : list ImageDesc) : M LoopExit :=
  match imgs with
  | [] => ret (Completed newImgDescs)
  | img :: rest =>
      newURL <- liftR (ImageWithRepository E (DigestRef (Location img)) bundleRepo) ;;
      ref <- liftR (NewDigest E newURL) ;;
      emit (EvGeneric ref) ;;;
      match registry_Generic E ref with
      | None =>
          relocateLoop bundleRepo rest
            (newImgDescs ++
             [{| Location := {| DigestRef := newURL;
                                OriginalTag := OriginalTag (Location img) |};
                 Name := Name img;
                 Metadata := Metadata img |}])
      | Some _ =>
          BeginLinef ("One or more images not found in bundle repo. Skipping lock file update" +:+ nl) ;;;
          ret ReturnedNil
      end
  end.

Definition rewriteImageLock (o : PullOptions) (ref : Reference) : M unit :=
  let imageLockDir := filepath_Join E [OutputPath o; BundleDir E; ImageLockFile E] in
  lockFile <- wrapM "Reading image lock file: " (ReadImageLockFile imageLockDir) ;;
  if (length (IL_Images lockFile) =? 0)%nat then ret tt
  else
    BeginLinef ("Locating image lock file images..." +:+ nl) ;;;
    exit <- relocateLoop (Context_Name ref) (IL_Images lockFile) [] ;;
    match exit with
    | ReturnedNil => ret tt
    | Completed newImgDescs =>
        let lockFile' := {| IL_ApiVersion := IL_ApiVersion lockFile;
                            IL_Kind := IL_Kind lockFile;
                            IL_Images := newImgDescs |} in
        imgLockBytes <- liftR (wrapErr "Marshalling image lock file: "
                                  (Marshal_ImageLock E lockFile')) ;;
        BeginLinef ("All images found in bundle repo. Updating lock file" +:+ nl) ;;;
        ioutil_WriteFile imageLockDir imgLockBytes 600
    end.

(** *** PullOptions.Run (pull.go, lines 58-133) *)

(** Go's map index expression [m[k]]: the zero value when [k] is absent. *)
Definition index (m : gmap string string) (k : string) : string :=
  default "" (m !! k).

(** The check of the caller's intent against the manifest (lines 90-97 of
    [Run]); the error it returns, if any. *)
Definition checkIntent (o : PullOptions) (manifest : v1_Manifest) : error :=
  if negb (String.eqb (Image o) "") then
    match Annotations manifest !! BundleAnnotation E with
    | Some _ => Some "Expected bundle flag when pulling a bundle, please use -b instead of --image"
    | None => None   (* expect annotation not to be set *)
    end
  else if negb (String.eqb (index (Annotations manifest) (BundleAnnotation E)) "true")
  then Some "Expected image flag when pulling an image or index, please use --image instead of -b"
  else None.

Definition Run (o : PullOptions) : M unit :=
  inputRef <- getRefFromFlags o ;;
  ref <- liftR (ParseReference E inputRef) ;;
  emit (EvImages ref) ;;;
  imgs <- liftR (wrapErr "Collecting images: " (registry_Images E ref)) ;;
  match imgs with
  | [] => fail "Expected to find at least one image, but found none"
  | img :: others =>
      (if (1 <? length imgs)%nat
       then BeginLinef ("Found multiple images, extracting first" +:+ nl)
       else ret tt) ;;;
      manifest <- liftR (wrapErr "Getting image manifest: " (Manifest img)) ;;
      check "" (checkIntent o manifest) ;;;
      digest <- liftR (wrapErr "Getting image digest: " (Digest_of img)) ;;
      BeginLinef ("Pulling image '" +:+ Context_Name ref +:+ "@" +:+ digest +:+ "'" +:+ nl) ;;;
      if String.eqb (OutputPath o) "/" || String.eqb (OutputPath o) "."
         || String.eqb (OutputPath o) ".."
      then fail "Disallowed output directory (trying to avoid accidental deletion)"
      else
        err <- fsCall (EvRemoveAll (OutputPath o)) (os_RemoveAll E (OutputPath o)) ;;
        check "Removing output directory: " err ;;;
        err <- fsCall (EvMkdirAll (OutputPath o) 448)
                      (os_MkdirAll E (OutputPath o) 448) ;;
        check "Creating output directory: " err ;;;
        err <- fsCall (EvAsDirectory (OutputPath o)) (AsDirectory E (OutputPath o) img) ;;
        check "Extracting image into directory: " err ;;;
        if negb (String.eqb (Bundle o) "") then
          wrapM "Rewriting image lock file: " (rewriteImageLock o ref)
        else ret tt
  end.

End WithEnv.

End Cmd.

(* ===================================================================== *)
(** ** pkg/imgpkg/image/tar_image.go *)

Module Image.

(** *** Paths (Go's [path/filepath], on clean slash-separated paths) *)

Definition slash : ascii := ascii_of_nat 47.

(** [filepath.Join(dir, name)] as [filepath.Walk] uses it. *)
Definition filepath_Join (dir name : string) : string :=
  dir +:+ "/" +:+ name.

Fixpoint stripPrefix (p s : string) : option string :=
  match p with
  | EmptyString => Some s
  | String a p' =>
      match s with
      | EmptyString => None
      | String b s' => if Ascii.eqb a b then stripPrefix p' s' else None
      end
  end.

(** [filepath.Rel(basepath, targpath)]: ["."] for the base itself, the
    remainder below it otherwise. *)
Definition filepath_Rel (basepath targpath : string) : Result string :=
  if String.eqb targpath basepath then Ok "."
  else match stripPrefix (basepath +:+ "/") targpath with
       | Some rest => Ok rest
       | None => Err ("Rel: can't make " +:+ targpath +:+ " relative to " +:+ basepath)
       end.

(** The scan behind [filepath.Base]: [last] is the last complete non-empty
    element seen so far, [cur] the element being read. *)
Fixpoint baseScan (s last cur : string) : string :=
  match s with
  | EmptyString => if String.eqb cur "" then last else cur
  | String c s' =>
      if Ascii.eqb c slash
      then baseScan s' (if String.eqb cur "" then last else cur) ""
      else baseScan s' last (cur +:+ String c EmptyString)
  end.

(** [filepath.Base]: the last element of the path, trailing slashes
    removed; ["."] for the empty path and ["/"] for a path of slashes. *)
Definition filepath_Base (path : string) : string :=
  if String.eqb path "" then "."
  else match baseScan path "" "" with
       | EmptyString => "/"
       | b => b
       end.

(** *** File modes (Go's [os.FileMode] bits) *)

Definition ModeDir : Z := Z.shiftl 1 31.
Definition ModeSymlink : Z := Z.shiftl 1 27.
Definition ModeDevice : Z := Z.shiftl 1 26.
Definition ModeNamedPipe : Z := Z.shiftl 1 25.
Definition ModeSocket : Z := Z.shiftl 1 24.
Definition ModeCharDevice : Z := Z.shiftl 1 21.
Definition ModeIrregular : Z := Z.shiftl 1 19.
Definition ModePerm : Z := 511.   (* 0777 *)

Definition ModeType : Z :=
  Z.lor ModeDir (Z.lor ModeSymlink (Z.lor ModeNamedPipe
    (Z.lor ModeSocket (Z.lor ModeDevice (Z.lor ModeCharDevice ModeIrregular))))).

(** *** The directory trees on disk *)

Inductive Kind :=
| Regular | Symlink | NamedPipe | Socket | Device | CharDevice | Irregular.

Definition kindBits (k : Kind) : Z :=
  match k with
  | Regular => 0
  | Symlink => ModeSymlink
  | NamedPipe => ModeNamedPipe
  | Socket => ModeSocket
  | Device => ModeDevice
  | CharDevice => Z.lor ModeDevice ModeCharDevice
  | Irregular => ModeIrregular
  end.

(** What differs between two checkouts of one logical tree. *)
Record Attr := {
  perm : Z;     (* permission bits on disk *)
  mtime : Z;    (* modification time on disk *)
}.

(** An entry of the file system as [os.Lstat] and [os.Open] see it.
    [Broken] is a name whose [lstat] fails; [readErr] is the failure of
    reading a directory's names, [openErr] that of opening a file.
    The children of a directory are in the order in which the walk takes
    them, the sorted order of [readDirNames]; [asWalked] below gives this
    order to a tree whose directories list their names in any order. *)
#[local] Unset Elimination Schemes.
Inductive Node :=
| File (k : Kind) (a : Attr) (content : string) (openErr : error)
| Dir (a : Attr) (size : Z) (readErr : error) (children : list (string * Node))
| Broken (lstatErr : string).
#[local] Set Elimination Schemes.

(** [os.FileInfo] of a node. *)
Definition info_Mode (n : Node) : Z :=
  match n with
  | File k a _ _ => Z.lor (kindBits k) (Z.land (perm a) ModePerm)
  | Dir a _ _ _ => Z.lor ModeDir (Z.land (perm a) ModePerm)
  | Broken _ => 0
  end.

Definition info_IsDir (n : Node) : bool :=
  negb (Z.land (info_Mode n) ModeDir =? 0).

Definition info_Size (n : Node) : Z :=
  match n with
  | File _ _ content _ => Z.of_nat (String.length content)
  | Dir _ size _ _ => size
  | Broken _ => 0
  end.

(** [os.Open] followed by reading the file to its end. *)
Definition os_Open (n : Node) : Result string :=
  match n with
  | File _ _ content None => Ok content
  | File _ _ _ (Some e) => Err e
  | Dir _ _ _ _ => Err "is a directory"
  | Broken e => Err e
  end.

(** The file system under the input paths: [os.Stat] follows a symbolic
    link at the path, [os.Lstat] does not. *)
Record FS := {
  stat : string -> Node;
  lstat : string -> Node;
}.

Definition os_Stat (fs : FS) (path : string) : Result Node :=
  match stat fs path with
  | Broken e => Err e
  | n => Ok n
  end.

Definition os_Lstat (fs : FS) (path : string) : Result Node :=
  match lstat fs path with
  | Broken e => Err e
  | n => Ok n
  end.

(** *** Directory listings as [filepath.Walk] reads them

    [readDirNames] of the standard library: [f.Readdirnames(-1)] gives the
    names in the order of the directory on disk, [sort.Strings] puts them
    in Go's order of strings, byte by byte; the walk then calls [lstat] on
    each name. *)

Definition strLe (a b : string) : Prop := String.leb a b = true.

#[global] Instance strLe_dec (a b : string) : Decision (strLe a b) :=
  decide (String.leb a b = true).





(** *** archive/tar *)

Module tar.

Record Header := {
  Name : string;
  Size : Z;
  Mode : Z;
  ModTime : Z;       (* [time.Time], counted from Go's zero instant *)
  Typeflag : ascii;
}.

Definition TypeReg : ascii := ascii_of_nat 48.   (* '0' *)
Definition TypeDir : ascii := ascii_of_nat 53.   (* '5' *)

(** What a [tar.Writer] has put on its underlying file. *)
Inductive Record_ :=
| RHeader (h : Header)
| RData (bytes : string).

End tar.

(** [time.Time{}] *)
Definition time_zero : Z := 0.

(** *** Errors seen by the walk *)

Inductive GoErr :=
| SkipDir                  (* filepath.SkipDir *)
| Errorf (msg : string)    (* any other error value *)
| Panic (msg : string).    (* a panic unwinding the stack *)

(** State threaded through the archiver: the records written by the
    [tar.Writer] and the lines written to [i.infoLog]. *)
Record St := {
  written : list tar.Record_;
  infoLog : list string;
}.

Definition WriteHeader (h : tar.Header) (s : St) : option GoErr * St :=
  (None, {| written := written s ++ [tar.RHeader h]; infoLog := infoLog s |}).

Definition io_Copy (bytes : string) (s : St) : option GoErr * St :=
  (None, {| written := written s ++ [tar.RData bytes]; infoLog := infoLog s |}).

Definition logLine (line : string) (s : St) : St :=
  {| written := written s; infoLog := infoLog s ++ [line] |}.

Record TarImage := {
  files : list string;
  excludePaths : list string;
}.

(** *** isExcluded (lines 363-370) *)
Fixpoint isExcludedIn (paths : list string) (relPath : string) : bool :=
  match paths with
  | [] => false
  | path :: rest => if String.eqb path relPath then true else isExcludedIn rest relPath
  end.

Definition isExcluded (i : TarImage) (relPath : string) : bool :=
  isExcludedIn (excludePaths i) relPath.

(** *** addDirToTar (lines 314-330) *)
Definition addDirToTar (i : TarImage) (relPath : string) (info : Node) (s : St)
  : option GoErr * St :=
  if isExcluded i relPath then (Some (Panic "Unreachable"), s)
  else
    let s1 := logLine ("dir: " +:+ relPath +:+ nl) s in
    WriteHeader {| tar.Name := relPath;
                   tar.Size := info_Size info;
                   tar.Mode := 448;              (* 0700 *)
                   tar.ModTime := time_zero;
                   tar.Typeflag := tar.TypeDir |} s1.

(** *** addFileToTar (lines 332-361)

    [info] is the node found at [fullPath]; opening [fullPath] opens it. *)
Definition addFileToTar (i : TarImage) (fullPath relPath : string) (info : Node)
    (s : St) : option GoErr * St :=
  if isExcluded i relPath then (None, s)
  else
    let s1 := logLine ("file: " +:+ relPath +:+ nl) s in
    match os_Open info with
    | Err e => (Some (Errorf e), s1)
    | Ok bytes =>
        match WriteHeader {| tar.Name := relPath;
                             tar.Size := info_Size info;
                             tar.Mode := 384;    (* 0600 *)
                             tar.ModTime := time_zero;
                             tar.Typeflag := tar.TypeReg |} s1 with
        | (Some e, s2) => (Some e, s2)
        | (None, s2) => io_Copy bytes s2
        end
    end.

(** *** The callback given to [filepath.Walk] (lines 281-299) *)
Definition walkFn (i : TarImage) (path : string)
    (walkedPath : string) (info : Node) (err : error) (s : St) : option GoErr * St :=
  match err with
  | Some e => (Some (Errorf e), s)
  | None =>
      match filepath_Rel path walkedPath with
      | Err e => (Some (Errorf e), s)
      | Ok relPath =>
          if info_IsDir info then
            if isExcluded i relPath then (Some SkipDir, s)
            else addDirToTar i relPath info s
          else if negb (Z.land (info_Mode info) ModeType =? 0) then
            (Some (Errorf ("Expected file '" +:+ walkedPath +:+ "' to be a regular file")), s)
          else addFileToTar i walkedPath relPath info s
      end
  end.

(** *** filepath.Walk (Go standard library) *)
Section Walk.
Context (fn : string -> Node -> error -> St -> option GoErr * St).

(** The [for _, name := range names] loop of [walk]; [walk] is the
    function being defined. *)
Fixpoint eachName (walk : string -> Node -> St -> option GoErr * St)
    (path : string) (cs : list (string * Node)) (s : St) {struct cs}
  : option GoErr * St :=
  match cs with
  | [] => (None, s)
  | (name, child) :: rest =>
      let filename := filepath_Join path name in
      match child with
      | Broken e =>
          match fn filename child (Some e) s with
          | (None, s') => eachName walk path rest s'
          | (Some SkipDir, s') => eachName walk path rest s'
          | (Some err, s') => (Some err, s')
          end
      | _ =>
          match walk filename child s with
          | (None, s') => eachName walk path rest s'
          | (Some SkipDir, s') =>
              if info_IsDir child then eachName walk path rest s'
              else (Some SkipDir, s')
          | (Some err, s') => (Some err, s')
          end
      end
  end.

Fixpoint walk (path : string) (info : Node) (s : St) {struct info}
  : option GoErr * St :=
  match info with
  | Dir _ _ readErr children =>
      let '(err1, s1) := fn path info readErr s in
      match readErr, err1 with
      | None, None => eachName walk path children s1
      | _, _ => (err1, s1)
      end
  | _ => fn path info None s
  end.

Definition filepath_Walk (fs : FS) (root : string) (s : St) : option GoErr * St :=
  let '(err, s') :=
    match os_Lstat fs root with
    | Err e => fn root (Broken e) (Some e) s
    | Ok info => walk root info s
    end in
  match err with
  | Some SkipDir => (None, s')
  | _ => (err, s')
  end.

End Walk.

(** *** createTarball (lines 269-312): the loop over [filePaths] *)
Fixpoint createTarballFrom (i : TarImage) (fs : FS) (filePaths : list string)
    (s : St) : option GoErr * St :=
  match filePaths with
  | [] => (None, s)
  | path :: rest =>
      match os_Stat fs path with
      | Err e => (Some (Errorf e), s)
      | Ok info =>
          if info_IsDir info then
            match filepath_Walk (walkFn i path) fs path s with
            | (None, s') => createTarballFrom i fs rest s'
            | (Some (Errorf e), s') =>
                (Some (Errorf ("Adding file '" +:+ path +:+ "' to tar: " +:+ e)), s')
            | (Some SkipDir, s') =>
                (Some (Errorf ("Adding file '" +:+ path +:+ "' to tar: skip this directory")), s')
            | (Some (Panic m), s') => (Some (Panic m), s')
            end
          else
            match addFileToTar i path (filepath_Base path) info s with
            | (None, s') => createTarballFrom i fs rest s'
            | (Some e, s') => (Some e, s')
            end
      end
  end.

(** [tar.NewWriter(file)] on the fresh file, then the loop. *)
Definition createTarball (i : TarImage) (fs : FS) (log : list string)
    (filePaths : list string) : option GoErr * St :=
  createTarballFrom i fs filePaths {| written := []; infoLog := log |}.

(** *** asFileImage (lines 246-267) *)

(** The temporary directory and the log; [NewFileImage] and the name
    [ioutil.TempFile] tries are outside this file. *)
Record World := {
  temp : gmap string (list tar.Record_);
  log : list string;
}.

Record Sys := {
  disk : FS;
  tempName : gmap string (list tar.Record_) -> string;
  FileImage : Type;
  NewFileImage : string -> bool -> list tar.Record_ -> Result FileImage;
}.

(** [ioutil.TempFile]: the file is created exclusively. *)
Definition ioutil_TempFile (S : Sys) (w : World) : Result string * World :=
  let name := tempName S (temp w) in
  match temp w !! name with
  | Some _ => (Err ("open " +:+ name +:+ ": file exists"), w)
  | None => (Ok name, {| temp := <[name := []]> (temp w); log := log w |})
  end.

Inductive Outcome (A : Type) :=
| Returned (r : Result A)
| Panicked (msg : string).
Arguments Returned {A} r.
Arguments Panicked {A} msg.

Definition asFileImage (S : Sys) (i : TarImage) (bundle : bool) (w : World)
  : Outcome (FileImage S) * World :=
  match ioutil_TempFile S w with
  | (Err e, w1) => (Returned (Err e), w1)
  | (Ok tmpFile, w1) =>
      let '(err, s) := createTarball i (disk S) (log w1) (files i) in
      let w2 := {| temp := <[tmpFile := written s]> (temp w1); log := infoLog s |} in
      match err with
      | Some (Panic m) => (Panicked m, w2)
      | Some SkipDir =>
          (Returned (Err "skip this directory"),
           {| temp := delete tmpFile (temp w2); log := log w2 |})
      | Some (Errorf e) =>
          (Returned (Err e), {| temp := delete tmpFile (temp w2); log := log w2 |})
      | None =>
          match NewFileImage S tmpFile bundle (written s) with
          | Err e => (Returned (Err e),
                      {| temp := delete tmpFile (temp w2); log := log w2 |})
          | Ok fileImg => (Returned (Ok fileImg), w2)
          end
      end
  end.

Definition AsFileBundle (S : Sys) (i : TarImage) := asFileImage S i true.
Definition AsFileImage (S : Sys) (i : TarImage) := asFileImage S i false.

End Image.

(* ===================================================================== *)
(** ** A sample environment for [pull.go], used to run the model *)

Module Sample.
Import Cmd.

(** The part of a reference after its first ['@']. *)
Fixpoint afterAt (s : string) : option string :=
  match s with
  | EmptyString => None
  | String c s' => if Ascii.eqb c (ascii_of_nat 64) then Some s' else afterAt s'
  end.

(** Modelled from the spec: [ImageWithRepository] is defined in another
    file of the package; "substituting the entry's repository component
    with the bundle's own resolved repository, keeping the digest
    unchanged". *)
Definition imageWithRepository (img repo : string) : Result string :=
  match afterAt img with
  | Some digest => Ok (repo +:+ "@" +:+ digest)
  | None => Err ("Parsing image URL: " +:+ img)
  end.

Definition newDigest (url : string) : Result Digest :=
  match afterAt url with
  | Some _ => Ok {| DigestStr := url |}
  | None => Err ("a digest must contain exactly one '@' separator: " +:+ url)
  end.

Definition desc (ref tag name : string) : ImageDesc :=
  {| Location := {| DigestRef := ref; OriginalTag := tag |};
     Name := name; Metadata := "meta:" +:+ name |}.

Definition lockTwo : ImageLock :=
  {| IL_ApiVersion := "imgpkg.carvel.dev/v1alpha1"; IL_Kind := "ImagesLock";
     IL_Images := [desc "index.docker.io/a/app@sha256:aa" "v1" "app";
                   desc "gcr.io/b/db@sha256:bb" "v2" "db"] |}.

Definition lockNone : ImageLock :=
  {| IL_ApiVersion := "imgpkg.carvel.dev/v1alpha1"; IL_Kind := "ImagesLock";
     IL_Images := [] |}.

(** A toy codec: two known documents; encoding lists the references. *)
Definition unmarshalImageLock (bytes : string) : Result ImageLock :=
  if String.eqb bytes "two" then Ok lockTwo
  else if String.eqb bytes "none" then Ok lockNone
  else Err "yaml: unmarshal errors".

Definition marshalImageLock (l : ImageLock) : Result string :=
  Ok (String.concat ";" (map (fun d => DigestRef (Location d)) (IL_Images l))).

Definition unmarshalBundleLock (bytes : string) : Result BundleLock :=
  if String.eqb bytes "" then Err "yaml: unmarshal errors"
  else Ok {| BL_ApiVersion := "imgpkg.carvel.dev/v1alpha1"; BL_Kind := "BundleLock";
             BL_Image := {| DigestRef := bytes; OriginalTag := "" |} |}.

Definition manifestWith (anns : gmap string string) : v1_Image :=
  {| Manifest := Ok {| Annotations := anns |}; Digest_of := Ok "sha256:00" |}.

(** A registry that holds the references listed in [present] and serves
    [imgs] for every reference. *)
Definition env (present : list string) (imgs : list v1_Image) : Env :=
  {| BundleAnnotation := "dev.carvel.imgpkg.bundle";
     BundleDir := ".imgpkg";
     ImageLockFile := "images.yml";
     filepath_Join := String.concat "/";
     ParseReference := fun s => if String.eqb s "" then Err "could not parse reference"
                                else Ok {| Context_Name := s |};
     registry_Images := fun _ => Ok imgs;
     registry_Generic := fun d => if existsb (String.eqb (DigestStr d)) present
                                  then None else Some "NAME_UNKNOWN";
     ImageWithRepository := imageWithRepository;
     NewDigest := newDigest;
     Unmarshal_BundleLock := unmarshalBundleLock;
     Unmarshal_ImageLock := unmarshalImageLock;
     Marshal_ImageLock := marshalImageLock;
     os_RemoveAll := fun path fs => (delete (path +:+ "/.imgpkg/images.yml") fs, None);
     os_MkdirAll := fun _ _ fs => (fs, None);
     AsDirectory := fun path _ fs => (<[path +:+ "/.imgpkg/images.yml" := "two"]> fs, None) |}.

Definition bundleImg : v1_Image :=
  manifestWith {[ "dev.carvel.imgpkg.bundle" := "true" ]}.

Definition plainImg : v1_Image := manifestWith ∅.

Definition opts (image bundle lock out : string) : PullOptions :=
  {| Image := image; Bundle := bundle; OutputPath := out; LockPath := lock |}.

Definition disk (bytes : string) : World :=
  {| files := {[ "/tmp/out/.imgpkg/images.yml" := bytes ]}; events := [] |}.

End Sample.

(* ===================================================================== *)
(** ** A sample file system for [tar_image.go] *)

Module TreeSample.
Import Image.

Definition attr (p t : Z) : Attr := {| perm := p; mtime := t |}.

Definition reg (p t : Z) (content : string) : Node :=
  File Regular (attr p t) content None.

(** [/src/app] with a [config] directory, a [skip] directory that holds a
    symbolic link, and a file. *)
Definition appTree (p t : Z) : Node :=
  Dir (attr p t) 4096 None
    [("config", Dir (attr p t) 4096 None [("a.yml", reg p t "k: v")]);
     ("skip", Dir (attr p t) 4096 None
                [("link", File Symlink (attr 511 t) "" None);
                 ("x.txt", reg p t "x")]);
     ("z.txt", reg p t "zzz")].

(** [/src/bad]: a named pipe next to a file. *)
Definition badTree : Node :=
  Dir (attr 493 7) 4096 None
    [("a.txt", reg 420 7 "a"); ("fifo", File NamedPipe (attr 420 7) "" None)].

Definition fsAt (p t : Z) : FS :=
  let look := fun path : string =>
    if String.eqb path "/src/app" then appTree p t
    else if String.eqb path "/src/bad" then badTree
    else if String.eqb path "/src/notes.txt" then reg p t "notes"
    else Broken ("stat " +:+ path +:+ ": no such file or directory") in
  {| stat := look; lstat := look |}.



Definition image (inputs excludes : list string) : TarImage :=
  {| files := inputs; excludePaths := excludes |}.



End TreeSample.

(* ===================================================================== *)
(** ** Vocabulary of the statements about [pull.go] *)

Module PullSpec.
Import Cmd.

(** How many of the three reference sources are given. *)
Definition isSet (s : string) : bool := negb (String.eqb s "").

Definition numSources (o : PullOptions) : nat :=
  ((if isSet (LockPath o) then 1 else 0) + (if isSet (Image o) then 1 else 0)
   + (if isSet (Bundle o) then 1 else 0))%nat.

(** Events that delete, create or write something on disk. *)
Definition mutates (ev : Event) : bool :=
  match ev with
  | EvWriteFile _ _ _ | EvRemoveAll _ | EvMkdirAll _ _ | EvAsDirectory _ => true
  | _ => false
  end.

Definition disallowed (path : string) : Prop :=
  path = "/" \/ path = "." \/ path = "..".

(** The candidate relocated reference of a lock entry, parsed. *)
Definition candidate (E : Env) (bundleRepo : string) (img : ImageDesc) : Result Digest :=
  match ImageWithRepository E (DigestRef (Location img)) bundleRepo with
  | Ok newURL => NewDigest E newURL
  | Err e => Err e
  end.

(** The entry's candidate is well formed and the registry has it. *)
Definition found (E : Env) (bundleRepo : string) (img : ImageDesc) : Prop :=
  exists d, candidate E bundleRepo img = Ok d /\ registry_Generic E d = None.

(** The entry's candidate is well formed and the registry lookup fails. *)
Definition missing (E : Env) (bundleRepo : string) (img : ImageDesc) : Prop :=
  exists d, candidate E bundleRepo img = Ok d /\ registry_Generic E d <> None.

Definition wellFormed (E : Env) (bundleRepo : string) (img : ImageDesc) : Prop :=
  exists d, candidate E bundleRepo img = Ok d.

(** [new] is [old] moved to the bundle's repository: the reference is the
    candidate, tag, name and metadata are those of [old]. *)
Definition relocated (E : Env) (bundleRepo : string) (old new : ImageDesc) : Prop :=
  ImageWithRepository E (DigestRef (Location old)) bundleRepo
    = Ok (DigestRef (Location new)) /\
  OriginalTag (Location new) = OriginalTag (Location old) /\
  Name new = Name old /\
  Metadata new = Metadata old.

(** The registry queries of the entries [imgs], in order. *)
Fixpoint queries (E : Env) (bundleRepo : string) (imgs : list ImageDesc) : list Event :=
  match imgs with
  | [] => []
  | img :: rest =>
      match candidate E bundleRepo img with
      | Ok d => EvGeneric d :: queries E bundleRepo rest
      | Err _ => []
      end
  end.

Definition withImages (E : Env) (imgs : Reference -> Result (list v1_Image)) : Env :=
  {| BundleAnnotation := BundleAnnotation E;
     BundleDir := BundleDir E;
     ImageLockFile := ImageLockFile E;
     filepath_Join := filepath_Join E;
     ParseReference := ParseReference E;
     registry_Images := imgs;
     registry_Generic := registry_Generic E;
     ImageWithRepository := ImageWithRepository E;
     NewDigest := NewDigest E;
     Unmarshal_BundleLock := Unmarshal_BundleLock E;
     Unmarshal_ImageLock := Unmarshal_ImageLock E;
     Marshal_ImageLock := Marshal_ImageLock E;
     os_RemoveAll := os_RemoveAll E;
     os_MkdirAll := os_MkdirAll E;
     AsDirectory := AsDirectory E |}.

Definition msgNoSource : string := "Expected either image, bundle, or lock".
Definition msgManySources : string := "Expected only one of image, bundle, or lock".
Definition msgUseBundleFlag : string :=
  "Expected bundle flag when pulling a bundle, please use -b instead of --image".
Definition msgUseImageFlag : string :=
  "Expected image flag when pulling an image or index, please use --image instead of -b".
Definition msgDisallowed : string :=
  "Disallowed output directory (trying to avoid accidental deletion)".
Definition msgNoImages : string :=
  "Expected to find at least one image, but found none".
Definition lineMultiple : string := "Found multiple images, extracting first" +:+ nl.
Definition lineLocating : string := "Locating image lock file images..." +:+ nl.
Definition lineSkipping : string :=
  "One or more images not found in bundle repo. Skipping lock file update" +:+ nl.
Definition lineUpdating : string :=
  "All images found in bundle repo. Updating lock file" +:+ nl.

(** A computation that only reads: the files are unchanged and no event
    of the trace mutates. *)
Definition readonly {A} (m : M A) : Prop :=
  forall w, exists r new,
    m w = (r, {| files := files w; events := events w ++ new |}) /\
    Forall (fun ev => mutates ev = false) new.

(** A read-only computation that always fails. *)
Definition refuses {A} (m : M A) : Prop :=
  forall w, exists e new,
    m w = (@Err A e, {| files := files w; events := events w ++ new |}) /\
    Forall (fun ev => mutates ev = false) new.

Definition relocatedDesc (img : ImageDesc) (newURL : string) : ImageDesc :=
  {| Location := {| DigestRef := newURL; OriginalTag := OriginalTag (Location img) |};
     Name := Name img;
     Metadata := Metadata img |}.

Definition logged (w : World) (new : list Event) : World :=
  {| files := files w; events := events w ++ new |}.

(** A computation whose outcome does not depend on the trace so far. *)
Definition appends {A} (m : M A) : Prop :=
  forall fs, exists r fs' delta, forall evs,
    m {| files := fs; events := evs |} = (r, {| files := fs'; events := evs ++ delta |}).

(** The remainder of [Run] once the first image has been selected
    (lines 85-132). *)
Definition pullSelected (E : Env) (o : PullOptions) (ref : Reference) (img : v1_Image) : M unit :=
  manifest <- liftR (wrapErr "Getting image manifest: " (Manifest img)) ;;
  check "" (checkIntent E o manifest) ;;;
  digest <- liftR (wrapErr "Getting image digest: " (Digest_of img)) ;;
  BeginLinef ("Pulling image '" +:+ Context_Name ref +:+ "@" +:+ digest +:+ "'" +:+ nl) ;;;
  if String.eqb (OutputPath o) "/" || String.eqb (OutputPath o) "."
     || String.eqb (OutputPath o) ".."
  then fail "Disallowed output directory (trying to avoid accidental deletion)"
  else
    err <- fsCall (EvRemoveAll (OutputPath o)) (os_RemoveAll E (OutputPath o)) ;;
    check "Removing output directory: " err ;;;
    err <- fsCall (EvMkdirAll (OutputPath o) 448) (os_MkdirAll E (OutputPath o) 448) ;;
    check "Creating output directory: " err ;;;
    err <- fsCall (EvAsDirectory (OutputPath o)) (AsDirectory E (OutputPath o) img) ;;
    check "Extracting image into directory: " err ;;;
    if negb (String.eqb (Bundle o) "") then
      wrapM "Rewriting image lock file: " (rewriteImageLock E o ref)
    else ret tt.

End PullSpec.

(* ===================================================================== *)
(** ** Vocabulary of the statements about [tar_image.go] *)

Module TarSpec.
Import Image.

Fixpoint hasSlash (s : string) : bool :=
  match s with
  | EmptyString => false
  | String c s' => Ascii.eqb c slash || hasSlash s'
  end.

(** A name as a directory can hold it: not empty, no separator. *)
Definition validName (name : string) : bool :=
  negb (String.eqb name "") && negb (hasSlash name).

Fixpoint wfNode (n : Node) : bool :=
  match n with
  | Dir _ _ _ children =>
      forallb (fun c => validName (fst c) && wfNode (snd c)) children
  | _ => true
  end.

(** [name] is the path [d] or a path below [d]. *)
Definition covers (d name : string) : Prop :=
  name = d \/ exists rest, name = d +:+ "/" +:+ rest.

(** [Within top t p n]: walking down from the node [t] at path [top], the
    node at path [p] is [n]. *)
Inductive Within (top : string) (t : Node) : string -> Node -> Prop :=
| Within_top : Within top t top t
| Within_child p a size readErr children name child :
    Within top t p (Dir a size readErr children) ->
    In (name, child) children ->
    Within top t (filepath_Join p name) child.



#[global] Instance Kind_eq_dec : EqDecision Kind.
Proof. solve_decision. Defined.




(** A record of the stream with the size field of a directory header set
    to zero; file headers and file data are kept as they are. *)
Definition withoutDirSize (r : tar.Record_) : tar.Record_ :=
  match r with
  | tar.RHeader h =>
      if Ascii.eqb (tar.Typeflag h) tar.TypeDir
      then tar.RHeader {| tar.Name := tar.Name h; tar.Size := 0; tar.Mode := tar.Mode h;
                          tar.ModTime := tar.ModTime h; tar.Typeflag := tar.Typeflag h |}
      else r
  | tar.RData _ => r
  end.

Definition sizeless (s : St) : St :=
  {| written := map withoutDirSize (written s); infoLog := infoLog s |}.



(** The metadata every archive entry is to have. *)
Definition normalized (h : tar.Header) : Prop :=
  tar.ModTime h = 0 /\
  ((tar.Typeflag h = tar.TypeDir /\ tar.Mode h = 448) \/
   (tar.Typeflag h = tar.TypeReg /\ tar.Mode h = 384)).

Definition dirHeader (relPath : string) (size : Z) : tar.Header :=
  {| tar.Name := relPath; tar.Size := size; tar.Mode := 448;
     tar.ModTime := 0; tar.Typeflag := tar.TypeDir |}.

Definition fileHeader (relPath : string) (content : string) : tar.Header :=
  {| tar.Name := relPath; tar.Size := Z.of_nat (String.length content);
     tar.Mode := 384; tar.ModTime := 0; tar.Typeflag := tar.TypeReg |}.

Definition msgNotRegular (walkedPath : string) : string :=
  "Expected file '" +:+ walkedPath +:+ "' to be a regular file".


(** The position of a walked path below the input [path]: the suffix is
    empty at the root and ["/" ++ rel] below it. *)
Definition relOf (suf : string) : string :=
  match suf with
  | EmptyString => "."
  | String _ rel => rel
  end.

Definition okSuf (suf : string) : Prop :=
  suf = "" \/ exists rel, suf = "/" +:+ rel.

Definition isRegular (k : Kind) : bool :=
  match k with Regular => true | _ => false end.

(** Every header written so far satisfies [Q]. *)
Definition allHeaders (Q : tar.Header -> Prop) (s : St) : Prop :=
  forall h, In (tar.RHeader h) (written s) -> Q h.

(** No exclusion pattern is [name] or a path above [name]. *)
Definition clearName (i : TarImage) (name : string) : Prop :=
  forall d, In d (excludePaths i) -> d <> "" -> ~ covers d name.

(** No exclusion pattern is a proper ancestor of the position. *)
Definition ancClear (i : TarImage) (suf : string) : Prop :=
  forall d, In d (excludePaths i) -> d <> "" ->
    forall rest, relOf suf <> d +:+ "/" +:+ rest.

(** The errors a walk step may return: [SkipDir] for a directory only,
    never a panic. *)
Definition properErr (info : Node) (r : option GoErr) : Prop :=
  match r with
  | None => True
  | Some SkipDir => info_IsDir info = true
  | Some (Errorf _) => True
  | Some (Panic _) => False
  end.


End TarSpec.

(* ===================================================================== *)
(** ** Facts about [pull.go] *)

Section PullFacts.
Import Cmd PullSpec.
Context (E : Env).

Lemma bind_ok {A B} (m : M A) (k : A -> M B) w a w' :
  m w = (Ok a, w') -> bind m k w = k a w'.
Proof. unfold bind. intros ->. reflexivity. Qed.

Lemma bind_err {A B} (m : M A) (k : A -> M B) w e w' :
  m w = (Err e, w') -> bind m k w = (Err e, w').
Proof. unfold bind. intros ->. reflexivity. Qed.

Lemma emit_run ev w :
  emit ev w = (Ok tt, {| files := files w; events := events w ++ [ev] |}).
Proof. reflexivity. Qed.

Lemma ReadFile_run path w :
  ioutil_ReadFile path w =
  (match files w !! path with
   | Some data => Ok data
   | None => Err ("open " +:+ path +:+ ": no such file or directory")
   end, {| files := files w; events := events w ++ [EvReadFile path] |}).
Proof.
  unfold ioutil_ReadFile, bind, emit. cbn [files events].
  destruct (files w !! path); reflexivity.
Qed.

Lemma ReadImageLockFile_run path w :
  ReadImageLockFile E path w =
  (match files w !! path with
   | Some data => Unmarshal_ImageLock E data
   | None => Err ("open " +:+ path +:+ ": no such file or directory")
   end, {| files := files w; events := events w ++ [EvReadFile path] |}).
Proof.
  unfold ReadImageLockFile, bind. rewrite ReadFile_run.
  destruct (files w !! path); reflexivity.
Qed.

Lemma liftR_run {A} (r : Result A) w : liftR r w = (r, w).
Proof. reflexivity. Qed.

(** Up to the manifest, a pull whose resolution steps succeed is the
    intent check followed by the rest of [Run]. *)
Lemma Run_reaches_check o w inputRef w1 ref img rest m :
  getRefFromFlags E o w = (Ok inputRef, w1) ->
  ParseReference E inputRef = Ok ref ->
  registry_Images E ref = Ok (img :: rest) ->
  Manifest img = Ok m ->
  exists w2 k, Run E o w = bind (check "" (checkIntent E o m)) k w2.
Proof.
  intros Hget Hparse Himgs Hman. unfold Run.
  rewrite (bind_ok _ _ _ _ _ Hget).
  rewrite (bind_ok _ _ w1 ref w1) by (rewrite liftR_run, Hparse; reflexivity).
  rewrite (bind_ok _ _ _ _ _ (emit_run _ _)).
  erewrite bind_ok by (rewrite liftR_run, Himgs; reflexivity).
  cbv beta iota.
  destruct (1 <? length (img :: rest))%nat.
  - erewrite bind_ok by apply emit_run.
    erewrite bind_ok by (rewrite liftR_run, Hman; reflexivity).
    eauto.
  - erewrite bind_ok by reflexivity.
    erewrite bind_ok by (rewrite liftR_run, Hman; reflexivity).
    eauto.
Qed.

Lemma check_some prefix msg w : check prefix (Some msg) w = (Err (prefix +:+ msg), w).
Proof. reflexivity. Qed.

Lemma isSet_false s : isSet s = false <-> s = "".
Proof.
  unfold isSet. destruct (String.eqb_spec s ""); simpl; split; congruence.
Qed.

(** C6. Reference-source mutual exclusion: when none or more than one of
    the lock path, the image flag and the bundle flag is given,
    [getRefFromFlags] and with it the whole pull fail with the usage error
    for that case, and the world is left as it was: no file has been read,
    the registry has not been asked, nothing was printed. *)
Theorem ref_source_exclusive (o : PullOptions) (w : World) :
  numSources o <> 1%nat ->
  let msg := if (numSources o =? 0)%nat then msgNoSource else msgManySources in
  getRefFromFlags E o w = (Err msg, w) /\ Run E o w = (Err msg, w).
Proof.
  intros Hn. cbv zeta.
  assert (Hg : getRefFromFlags E o w
               = (Err (if (numSources o =? 0)%nat then msgNoSource else msgManySources), w)).
  { destruct o as [i b out l].
    unfold getRefFromFlags, numSources, isSet, bind, liftR in *.
    cbn [LockPath Image Bundle pickRef] in *.
    destruct l, i, b; cbn in Hn |- *; try reflexivity; congruence. }
  split; [exact Hg|].
  unfold Run. erewrite bind_err by exact Hg. reflexivity.
Qed.

(** C8. Empty lock document: when the lock document of the bundle decodes
    to zero image entries, the rewrite step returns success having only
    read the document: no registry query, no notice, no write, the files on
    disk are those from before. *)
Theorem empty_lock_is_noop (o : PullOptions) (ref : Reference) (w : World)
    (bytes : string) (lockFile : ImageLock) :
  let path := filepath_Join E [OutputPath o; BundleDir E; ImageLockFile E] in
  files w !! path = Some bytes ->
  Unmarshal_ImageLock E bytes = Ok lockFile ->
  IL_Images lockFile = [] ->
  rewriteImageLock E o ref w
  = (Ok tt, {| files := files w; events := events w ++ [EvReadFile path] |}).
Proof.
  intros path Hfile Hdec Hnil. unfold rewriteImageLock. fold path.
  erewrite bind_ok.
  2:{ unfold wrapM. rewrite ReadImageLockFile_run, Hfile, Hdec. reflexivity. }
  rewrite Hnil. reflexivity.
Qed.

Ltac run_step :=
  first
    [ erewrite bind_ok by eassumption
    | erewrite bind_ok
        by (rewrite liftR_run;
            match goal with H : _ = Ok _ |- _ => rewrite H end; reflexivity)
    | erewrite bind_ok by apply emit_run
    | erewrite bind_ok by reflexivity ].

Lemma checkIntent_image_present o m v :
  Image o <> "" -> Annotations m !! BundleAnnotation E = Some v ->
  checkIntent E o m = Some msgUseBundleFlag.
Proof.
  intros Hi Ha. unfold checkIntent.
  apply String.eqb_neq in Hi. rewrite Hi, Ha. reflexivity.
Qed.

Lemma checkIntent_image_absent o m :
  Image o <> "" -> Annotations m !! BundleAnnotation E = None ->
  checkIntent E o m = None.
Proof.
  intros Hi Ha. unfold checkIntent.
  apply String.eqb_neq in Hi. rewrite Hi, Ha. reflexivity.
Qed.

Lemma checkIntent_bundle o m :
  Image o = "" ->
  checkIntent E o m =
  if String.eqb (index (Annotations m) (BundleAnnotation E)) "true"
  then None else Some msgUseImageFlag.
Proof.
  intros Hi. unfold checkIntent. rewrite Hi. cbn [String.eqb negb].
  destruct (String.eqb _ "true"); reflexivity.
Qed.

Lemma index_true (anns : gmap string string) k :
  index anns k = "true" <-> anns !! k = Some "true".
Proof.
  unfold index. destruct (anns !! k) as [v|]; cbn; split; congruence.
Qed.

(** C2 (as the code has it). A pull that has fetched the manifest of its
    image checks the caller's intent: with the image flag set it fails with
    the error naming the bundle flag as soon as the manifest carries the
    bundle annotation, whatever its value; with the image flag empty it
    fails with the error naming the image flag when the annotation is
    absent or is not the literal "true"; in the two remaining cases the
    check passes. *)
Theorem intent_check_by_presence (o : PullOptions) (w w1 : World)
    (inputRef : string) (ref : Reference) (img : v1_Image)
    (rest : list v1_Image) (m : v1_Manifest) :
  getRefFromFlags E o w = (Ok inputRef, w1) ->
  ParseReference E inputRef = Ok ref ->
  registry_Images E ref = Ok (img :: rest) ->
  Manifest img = Ok m ->
  let ann := Annotations m !! BundleAnnotation E in
  (Image o <> "" -> is_Some ann ->
     checkIntent E o m = Some msgUseBundleFlag /\
     fst (Run E o w) = Err msgUseBundleFlag) /\
  (Image o = "" -> ann <> Some "true" ->
     checkIntent E o m = Some msgUseImageFlag /\
     fst (Run E o w) = Err msgUseImageFlag) /\
  (Image o <> "" -> ann = None -> checkIntent E o m = None) /\
  (Image o = "" -> ann = Some "true" -> checkIntent E o m = None).
Proof.
  intros Hget Hparse Himgs Hman ann.
  destruct (Run_reaches_check o w inputRef w1 ref img rest m Hget Hparse Himgs Hman)
    as (w2 & k & HRun).
  assert (Hbundle : Image o = "" -> ann <> Some "true" ->
                    checkIntent E o m = Some msgUseImageFlag).
  { intros Hi Ha. rewrite checkIntent_bundle by assumption.
    destruct (String.eqb_spec (index (Annotations m) (BundleAnnotation E)) "true") as [Ht|Ht];
      [apply index_true in Ht; contradiction | reflexivity]. }
  split; [|split; [|split]].
  - intros Hi [v Hv]. split; [eapply checkIntent_image_present; eassumption|].
    rewrite HRun. erewrite bind_err; [reflexivity|].
    erewrite checkIntent_image_present by eassumption. reflexivity.
  - intros Hi Ha. split; [apply Hbundle; assumption|].
    rewrite HRun. erewrite bind_err; [reflexivity|].
    rewrite (Hbundle Hi Ha). reflexivity.
  - intros Hi Ha. apply checkIntent_image_absent; assumption.
  - intros Hi Ha. rewrite checkIntent_bundle by assumption.
    apply index_true in Ha. rewrite Ha. reflexivity.
Qed.

(** *** Computations that only read *)

Lemma world_nil w : w = {| files := files w; events := events w ++ [] |}.
Proof. destruct w. cbn. rewrite app_nil_r. reflexivity. Qed.

Lemma readonly_pure {A} (r : Result A) : readonly (liftR r).
Proof.
  intros w. exists r, []. split; [|constructor].
  rewrite liftR_run. f_equal. apply world_nil.
Qed.

Lemma readonly_ret {A} (a : A) : readonly (ret a).
Proof. apply (readonly_pure (Ok a)). Qed.

Lemma readonly_fail {A} e : readonly (@fail A e).
Proof. apply (readonly_pure (Err e)). Qed.

Lemma readonly_emit ev : mutates ev = false -> readonly (emit ev).
Proof.
  intros Hev w. exists (Ok tt), [ev]. split; [reflexivity|].
  constructor; [assumption|constructor].
Qed.

Lemma readonly_bind {A B} (m : M A) (k : A -> M B) :
  readonly m -> (forall a, readonly (k a)) -> readonly (bind m k).
Proof.
  intros Hm Hk w. destruct (Hm w) as (r & new & Hrun & Hnew).
  destruct r as [a|e].
  - destruct (Hk a {| files := files w; events := events w ++ new |})
      as (r2 & new2 & Hrun2 & Hnew2).
    exists r2, (new ++ new2). split.
    + erewrite bind_ok by exact Hrun. rewrite Hrun2. cbn [files events].
      rewrite <- app_assoc. reflexivity.
    + apply Forall_app; split; assumption.
  - exists (Err e), new. split; [|assumption].
    erewrite bind_err by exact Hrun. reflexivity.
Qed.

Lemma readonly_ReadFile path : readonly (ioutil_ReadFile path).
Proof.
  intros w. eexists _, [EvReadFile path]. split; [apply ReadFile_run|].
  constructor; [reflexivity|constructor].
Qed.

Lemma readonly_check prefix e : readonly (check prefix e).
Proof. destruct e; [apply readonly_fail|apply readonly_ret]. Qed.

Lemma readonly_getRefFromFlags o : readonly (getRefFromFlags E o).
Proof.
  unfold getRefFromFlags. apply readonly_bind; [apply readonly_pure|intros ref].
  destruct (String.eqb ref ""); [apply readonly_fail|].
  destruct (String.eqb (LockPath o) ""); [apply readonly_ret|].
  apply readonly_bind; [apply readonly_ReadFile|intros lockBytes].
  apply readonly_bind; [apply readonly_pure|intros bundleLock].
  apply readonly_ret.
Qed.

Lemma refuses_fail {A} e : refuses (@fail A e).
Proof.
  intros w. exists e, []. split; [|constructor].
  unfold fail. f_equal. apply world_nil.
Qed.

Lemma refuses_bind {A B} (m : M A) (k : A -> M B) :
  readonly m -> (forall a, refuses (k a)) -> refuses (bind m k).
Proof.
  intros Hm Hk w. destruct (Hm w) as (r & new & Hrun & Hnew).
  destruct r as [a|e].
  - destruct (Hk a {| files := files w; events := events w ++ new |})
      as (e2 & new2 & Hrun2 & Hnew2).
    exists e2, (new ++ new2). split.
    + erewrite bind_ok by exact Hrun. rewrite Hrun2. cbn [files events].
      rewrite <- app_assoc. reflexivity.
    + apply Forall_app; split; assumption.
  - exists e, new. split; [|assumption].
    erewrite bind_err by exact Hrun. reflexivity.
Qed.

Lemma disallowed_test path :
  disallowed path ->
  String.eqb path "/" || String.eqb path "." || String.eqb path ".." = true.
Proof. intros [-> | [-> | ->]]; reflexivity. Qed.

Lemma Run_refuses_disallowed o : disallowed (OutputPath o) -> refuses (Run E o).
Proof.
  intros Hd. unfold Run.
  apply refuses_bind; [apply readonly_getRefFromFlags|intros inputRef].
  apply refuses_bind; [apply readonly_pure|intros ref].
  apply refuses_bind; [apply readonly_emit; reflexivity|intros _].
  apply refuses_bind; [apply readonly_pure|intros imgs].
  destruct imgs as [|img others]; [apply refuses_fail|].
  apply refuses_bind.
  { destruct (1 <? _)%nat; [apply readonly_emit; reflexivity|apply readonly_ret]. }
  intros _.
  apply refuses_bind; [apply readonly_pure|intros manifest].
  apply refuses_bind; [apply readonly_check|intros _].
  apply refuses_bind; [apply readonly_pure|intros digest].
  apply refuses_bind; [apply readonly_emit; reflexivity|intros _].
  rewrite (disallowed_test _ Hd). apply refuses_fail.
Qed.

(** C7. Disallowed destination: a pull whose output path is "/", "." or
    ".." always fails, and up to the failure it has only read: the files
    on disk are unchanged and no removal, directory creation, extraction
    or write was attempted.  When the steps before the destination check
    succeed (reference, images, manifest, intent, digest) the failure is
    the usage error about the disallowed output directory. *)
Theorem disallowed_output_untouched (o : PullOptions) (w : World) :
  disallowed (OutputPath o) ->
  exists msg new,
    Run E o w = (Err msg, {| files := files w; events := events w ++ new |}) /\
    Forall (fun ev => mutates ev = false) new /\
    (forall inputRef w1 ref img rest m digest,
        getRefFromFlags E o w = (Ok inputRef, w1) ->
        ParseReference E inputRef = Ok ref ->
        registry_Images E ref = Ok (img :: rest) ->
        Manifest img = Ok m ->
        checkIntent E o m = None ->
        Digest_of img = Ok digest ->
        msg = msgDisallowed).
Proof.
  intros Hd. destruct (Run_refuses_disallowed o Hd w) as (msg & new & HRun & Hnew).
  exists msg, new. split; [exact HRun|]. split; [exact Hnew|].
  intros inputRef w1 ref img rest m digest Hget Hparse Himgs Hman Hint Hdig.
  revert HRun. unfold Run.
  rewrite (bind_ok _ _ _ _ _ Hget).
  rewrite (bind_ok _ _ w1 ref w1) by (rewrite liftR_run, Hparse; reflexivity).
  rewrite (bind_ok _ _ _ _ _ (emit_run _ _)).
  erewrite bind_ok by (rewrite liftR_run, Himgs; reflexivity).
  cbv beta iota.
  destruct (1 <? length (img :: rest))%nat.
  - erewrite bind_ok by apply emit_run.
    erewrite bind_ok by (rewrite liftR_run, Hman; reflexivity).
    rewrite Hint. erewrite bind_ok by reflexivity.
    erewrite bind_ok by (rewrite liftR_run, Hdig; reflexivity).
    erewrite bind_ok by apply emit_run.
    rewrite (disallowed_test _ Hd). unfold fail.
    intros HRun. inversion HRun. reflexivity.
  - erewrite bind_ok by reflexivity.
    erewrite bind_ok by (rewrite liftR_run, Hman; reflexivity).
    rewrite Hint. erewrite bind_ok by reflexivity.
    erewrite bind_ok by (rewrite liftR_run, Hdig; reflexivity).
    erewrite bind_ok by apply emit_run.
    rewrite (disallowed_test _ Hd). unfold fail.
    intros HRun. inversion HRun. reflexivity.
Qed.

(** *** The relocation loop *)

Lemma logged_logged w a b : logged (logged w a) b = logged w (a ++ b).
Proof. unfold logged. cbn. rewrite app_assoc. reflexivity. Qed.

Lemma relocateLoop_cons repo img rest acc w :
  relocateLoop E repo (img :: rest) acc w =
  match ImageWithRepository E (DigestRef (Location img)) repo with
  | Err e => (Err e, w)
  | Ok newURL =>
      match NewDigest E newURL with
      | Err e => (Err e, w)
      | Ok d =>
          match registry_Generic E d with
          | None => relocateLoop E repo rest (acc ++ [relocatedDesc img newURL])
                      (logged w [EvGeneric d])
          | Some _ => (Ok ReturnedNil, logged w [EvGeneric d; UILine lineSkipping])
          end
      end
  end.
Proof.
  cbn [relocateLoop]. unfold bind, liftR.
  destruct (ImageWithRepository E _ repo) as [newURL|e]; [|reflexivity].
  destruct (NewDigest E newURL) as [d|e]; [|reflexivity].
  cbn [emit]. destruct (registry_Generic E d); [|reflexivity].
  unfold BeginLinef, emit, ret, logged. cbn. rewrite <- app_assoc. reflexivity.
Qed.

Lemma candidate_ok repo img d :
  candidate E repo img = Ok d ->
  exists newURL,
    ImageWithRepository E (DigestRef (Location img)) repo = Ok newURL /\
    NewDigest E newURL = Ok d.
Proof.
  unfold candidate. destruct (ImageWithRepository E _ repo); [eauto|discriminate].
Qed.

Lemma queries_cons repo img rest d :
  candidate E repo img = Ok d ->
  queries E repo (img :: rest) = EvGeneric d :: queries E repo rest.
Proof. intros H. cbn [queries]. rewrite H. reflexivity. Qed.

(** The loop stops at the first entry the registry does not have. *)
Lemma relocateLoop_abort repo pre img post :
  Forall (found E repo) pre -> missing E repo img ->
  forall acc w,
    relocateLoop E repo (pre ++ img :: post) acc w
    = (Ok ReturnedNil,
       logged w (queries E repo (pre ++ [img]) ++ [UILine lineSkipping])).
Proof.
  intros Hpre (d & Hd & Hmiss). induction Hpre as [|a pre (da & Hda & Hfound) _ IH];
    intros acc w.
  - cbn [app]. rewrite relocateLoop_cons.
    destruct (candidate_ok _ _ _ Hd) as (newURL & -> & ->).
    destruct (registry_Generic E d); [|contradiction].
    rewrite (queries_cons _ _ _ _ Hd). reflexivity.
  - cbn [app]. rewrite relocateLoop_cons.
    destruct (candidate_ok _ _ _ Hda) as (newURL & -> & ->).
    rewrite Hfound, IH, logged_logged.
    rewrite (queries_cons _ _ _ _ Hda). reflexivity.
Qed.

(** With every entry present the loop completes with the relocated list. *)
Lemma relocateLoop_commit repo imgs :
  Forall (found E repo) imgs ->
  exists news,
    Forall2 (relocated E repo) imgs news /\
    forall acc w,
      relocateLoop E repo imgs acc w
      = (Ok (Completed (acc ++ news)), logged w (queries E repo imgs)).
Proof.
  induction 1 as [|a imgs (da & Hda & Hfound) _ (news & Hrel & IH)].
  - exists []. split; [constructor|]. intros acc w. cbn. unfold ret, logged.
    rewrite !app_nil_r. destruct w; reflexivity.
  - destruct (candidate_ok _ _ _ Hda) as (newURL & HnewURL & Hdig).
    exists (relocatedDesc a newURL :: news). split.
    + constructor; [|assumption]. repeat split. exact HnewURL.
    + intros acc w. rewrite relocateLoop_cons, HnewURL, Hdig, Hfound, IH, logged_logged.
      rewrite (queries_cons _ _ _ _ Hda), <- app_assoc. reflexivity.
Qed.

(** The loop can only complete when every entry is present. *)
Lemma relocateLoop_completed repo imgs :
  forall acc w l w',
    relocateLoop E repo imgs acc w = (Ok (Completed l), w') ->
    Forall (found E repo) imgs.
Proof.
  induction imgs as [|a imgs IH]; intros acc w l w' Hrun; [constructor|].
  rewrite relocateLoop_cons in Hrun.
  destruct (ImageWithRepository E _ repo) as [newURL|e] eqn:HnewURL; [|discriminate].
  destruct (NewDigest E newURL) as [d|e] eqn:Hdig; [|discriminate].
  destruct (registry_Generic E d) eqn:Hgen; [discriminate|].
  constructor; [|eapply IH; eassumption].
  exists d. split; [|assumption]. unfold candidate. rewrite HnewURL. exact Hdig.
Qed.

Lemma readonly_relocateLoop repo imgs : forall acc, readonly (relocateLoop E repo imgs acc).
Proof.
  induction imgs as [|a imgs IH]; intros acc; cbn [relocateLoop].
  - apply readonly_ret.
  - apply readonly_bind; [apply readonly_pure|intros newURL].
    apply readonly_bind; [apply readonly_pure|intros d].
    apply readonly_bind; [apply readonly_emit; reflexivity|intros _].
    destruct (registry_Generic E d).
    + apply readonly_bind; [apply readonly_emit; reflexivity|intros _].
      apply readonly_ret.
    + apply IH.
Qed.

Lemma first_missing repo pre img :
  Forall (wellFormed E repo) pre -> missing E repo img ->
  exists pre' img' post',
    pre ++ [img] = pre' ++ img' :: post' /\
    Forall (found E repo) pre' /\ missing E repo img'.
Proof.
  intros Hwf Hmiss. induction Hwf as [|a pre (d & Hd) _ IH].
  - exists [], img, []. repeat split; [constructor|assumption].
  - destruct (registry_Generic E d) as [e|] eqn:Hgen.
    + exists [], a, (pre ++ [img]). repeat split; [constructor|].
      exists d. split; [assumption|congruence].
    + destruct IH as (pre' & img' & post' & Heq & Hfound & Hmiss').
      exists (a :: pre'), img', post'. cbn [app]. rewrite Heq.
      repeat split; [|assumption].
      constructor; [|assumption]. exists d. split; assumption.
Qed.

Lemma WriteFile_run path data perm w :
  ioutil_WriteFile path data perm w
  = (Ok tt, {| files := <[path := data]> (files w);
               events := events w ++ [EvWriteFile path data perm] |}).
Proof. reflexivity. Qed.

(** Once the lock document is read and has entries, the rewrite is the
    loop followed by the commit. *)
Lemma rewriteImageLock_loop o ref w bytes lockFile :
  let path := filepath_Join E [OutputPath o; BundleDir E; ImageLockFile E] in
  files w !! path = Some bytes ->
  Unmarshal_ImageLock E bytes = Ok lockFile ->
  IL_Images lockFile <> [] ->
  rewriteImageLock E o ref w =
  match relocateLoop E (Context_Name ref) (IL_Images lockFile) []
          (logged w [EvReadFile path; UILine lineLocating]) with
  | (Err e, w') => (Err e, w')
  | (Ok ReturnedNil, w') => (Ok tt, w')
  | (Ok (Completed newImgDescs), w') =>
      match Marshal_ImageLock E {| IL_ApiVersion := IL_ApiVersion lockFile;
                                   IL_Kind := IL_Kind lockFile;
                                   IL_Images := newImgDescs |} with
      | Err e => (Err ("Marshalling image lock file: " +:+ e), w')
      | Ok imgLockBytes =>
          (Ok tt, {| files := <[path := imgLockBytes]> (files w');
                     events := events w' ++ [UILine lineUpdating;
                                             EvWriteFile path imgLockBytes 600] |})
      end
  end.
Proof.
  intros path Hfile Hdec Hne. unfold rewriteImageLock. fold path.
  erewrite bind_ok.
  2:{ unfold wrapM. rewrite ReadImageLockFile_run, Hfile, Hdec. reflexivity. }
  destruct (IL_Images lockFile) as [|img imgs] eqn:Himgs; [contradiction|].
  cbn [length Nat.eqb].
  erewrite bind_ok by apply emit_run. cbn [files events].
  replace {| files := files w;
             events := (events w ++ [EvReadFile path]) ++ [UILine ("Locating image lock file images..." +:+ nl)] |}
    with (logged w [EvReadFile path; UILine lineLocating])
    by (unfold logged; rewrite <- app_assoc; reflexivity).
  unfold bind at 1.
  destruct (relocateLoop E (Context_Name ref) (img :: imgs) [] _) as [[[news|]|e] w'];
    try reflexivity.
  unfold bind, liftR, wrapErr.
  destruct (Marshal_ImageLock E _) as [imgLockBytes|e]; [|reflexivity].
  cbn. rewrite <- app_assoc. reflexivity.
Qed.

(** C1. Reference rewrite is all-or-nothing.  For a lock document that
    decodes to at least one entry:
    - if some entry [img] (the k-th) is not found by the registry check
      at its candidate and the candidates of the entries before it are
      well formed, the rewrite returns success with the files on disk
      unchanged; it has printed the one notice that the update is skipped,
      and the registry was asked only about a prefix of the first k
      entries, so no entry after the k-th was checked;
    - if every entry is found, the document is overwritten with the
      encoding of the N relocated entries, each with the tag, name and
      metadata of the original;
    - a run that changes the files or issues a write found every entry. *)
Theorem rewrite_all_or_nothing (o : PullOptions) (ref : Reference) (w : World)
    (bytes : string) (lockFile : ImageLock) :
  let path := filepath_Join E [OutputPath o; BundleDir E; ImageLockFile E] in
  let repo := Context_Name ref in
  files w !! path = Some bytes ->
  Unmarshal_ImageLock E bytes = Ok lockFile ->
  IL_Images lockFile <> [] ->
  (forall pre img post,
      IL_Images lockFile = pre ++ img :: post ->
      Forall (wellFormed E repo) pre ->
      missing E repo img ->
      exists checked,
        checked `prefix_of` (pre ++ [img]) /\
        rewriteImageLock E o ref w
        = (Ok tt,
           {| files := files w;
              events := events w ++ [EvReadFile path; UILine lineLocating]
                          ++ queries E repo checked ++ [UILine lineSkipping] |}))
  /\
  (Forall (found E repo) (IL_Images lockFile) ->
   exists news,
     Forall2 (relocated E repo) (IL_Images lockFile) news /\
     forall newBytes,
       Marshal_ImageLock E {| IL_ApiVersion := IL_ApiVersion lockFile;
                              IL_Kind := IL_Kind lockFile;
                              IL_Images := news |} = Ok newBytes ->
       rewriteImageLock E o ref w
       = (Ok tt,
          {| files := <[path := newBytes]> (files w);
             events := events w ++ [EvReadFile path; UILine lineLocating]
                         ++ queries E repo (IL_Images lockFile)
                         ++ [UILine lineUpdating; EvWriteFile path newBytes 600] |}))
  /\
  (forall r fs' new,
      rewriteImageLock E o ref w = (r, {| files := fs'; events := events w ++ new |}) ->
      fs' <> files w \/ Exists (fun ev => mutates ev = true) new ->
      Forall (found E repo) (IL_Images lockFile)).
Proof.
  intros path repo Hfile Hdec Hne.
  pose proof (rewriteImageLock_loop o ref w bytes lockFile Hfile Hdec Hne) as Hloop.
  fold path repo in Hloop. split; [|split].
  - intros pre img post Himgs Hwf Hmiss.
    destruct (first_missing repo pre img Hwf Hmiss)
      as (pre' & img' & post' & Heq & Hfound & Hmiss').
    exists (pre' ++ [img']). split.
    + exists post'. rewrite Heq, <- app_assoc. reflexivity.
    + rewrite Hloop, Himgs.
      replace (pre ++ img :: post) with (pre' ++ img' :: (post' ++ post))
        by (change (pre ++ img :: post) with (pre ++ [img] ++ post);
            rewrite app_assoc, Heq, <- app_assoc; reflexivity).
      rewrite (relocateLoop_abort repo pre' img' _ Hfound Hmiss').
      unfold logged. cbn [files events]. rewrite <- app_assoc. reflexivity.
  - intros Hall. destruct (relocateLoop_commit repo _ Hall) as (news & Hrel & Hrun).
    exists news. split; [exact Hrel|]. intros newBytes Hmar.
    rewrite Hloop, Hrun. cbn [app]. rewrite Hmar.
    unfold logged. cbn [files events]. rewrite <- !app_assoc. reflexivity.
  - intros r fs' new HRun Hchanged. rewrite Hloop in HRun.
    destruct (readonly_relocateLoop repo (IL_Images lockFile) []
                (logged w [EvReadFile path; UILine lineLocating]))
      as (r0 & new0 & Hrun0 & Hquiet).
    destruct r0 as [[news|]|e].
    + eapply relocateLoop_completed. exact Hrun0.
    + exfalso. rewrite Hrun0 in HRun. unfold logged in HRun. cbn [files events] in HRun.
      rewrite <- app_assoc in HRun. inversion HRun as [[Hr Hfs Hev]].
      apply app_inv_head in Hev. subst new.
      destruct Hchanged as [Hfs'|Hex]; [congruence|].
      apply List.Exists_exists in Hex. destruct Hex as (ev & Hin & Hmut).
      cbn [app] in Hin. destruct Hin as [<-|[<-|Hin]]; try discriminate.
      rewrite List.Forall_forall in Hquiet. rewrite (Hquiet _ Hin) in Hmut. discriminate.
    + exfalso. rewrite Hrun0 in HRun. unfold logged in HRun. cbn [files events] in HRun.
      rewrite <- app_assoc in HRun. inversion HRun as [[Hr Hfs Hev]].
      apply app_inv_head in Hev. subst new.
      destruct Hchanged as [Hfs'|Hex]; [congruence|].
      apply List.Exists_exists in Hex. destruct Hex as (ev & Hin & Hmut).
      cbn [app] in Hin. destruct Hin as [<-|[<-|Hin]]; try discriminate.
      rewrite List.Forall_forall in Hquiet. rewrite (Hquiet _ Hin) in Hmut. discriminate.
Qed.

(** *** Computations never read the trace *)

Lemma appends_pure {A} (r : Result A) : appends (liftR r).
Proof.
  intros fs. exists r, fs, []. intros evs. rewrite app_nil_r. reflexivity.
Qed.

Lemma appends_emit ev : appends (emit ev).
Proof. intros fs. exists (Ok tt), fs, [ev]. reflexivity. Qed.

Lemma appends_bind {A B} (m : M A) (k : A -> M B) :
  appends m -> (forall a, appends (k a)) -> appends (bind m k).
Proof.
  intros Hm Hk fs. destruct (Hm fs) as (r & fs1 & d1 & H1).
  destruct r as [a|e].
  - destruct (Hk a fs1) as (r2 & fs2 & d2 & H2).
    exists r2, fs2, (d1 ++ d2). intros evs.
    erewrite bind_ok by apply H1. rewrite H2, app_assoc. reflexivity.
  - exists (Err e), fs1, d1. intros evs. erewrite bind_err by apply H1. reflexivity.
Qed.

Lemma appends_wrapM {A} prefix (m : M A) : appends m -> appends (wrapM prefix m).
Proof.
  intros Hm fs. destruct (Hm fs) as (r & fs1 & d1 & H1).
  exists (wrapErr prefix r), fs1, d1. intros evs. unfold wrapM. rewrite H1. reflexivity.
Qed.

Lemma appends_check prefix e : appends (check prefix e).
Proof. destruct e; [apply (appends_pure (Err _))|apply (appends_pure (Ok tt))]. Qed.

Lemma appends_fsCall ev op : appends (fsCall ev op).
Proof.
  intros fs. destruct (op fs) as [fs1 e] eqn:Hop.
  exists (Ok e), fs1, [ev]. intros evs.
  unfold fsCall, bind, emit. cbn [files events]. rewrite Hop. reflexivity.
Qed.

Lemma appends_ReadFile path : appends (ioutil_ReadFile path).
Proof.
  intros fs.
  exists (match fs !! path with
          | Some data => Ok data
          | None => Err ("open " +:+ path +:+ ": no such file or directory")
          end), fs, [EvReadFile path].
  intros evs. rewrite ReadFile_run. reflexivity.
Qed.

Lemma appends_WriteFile path data perm : appends (ioutil_WriteFile path data perm).
Proof.
  intros fs. exists (Ok tt), (<[path := data]> fs), [EvWriteFile path data perm].
  intros evs. rewrite WriteFile_run. reflexivity.
Qed.

Lemma appends_relocateLoop repo imgs : forall acc, appends (relocateLoop E repo imgs acc).
Proof.
  induction imgs as [|a imgs IH]; intros acc; cbn [relocateLoop].
  - apply (appends_pure (Ok _)).
  - apply appends_bind; [apply appends_pure|intros newURL].
    apply appends_bind; [apply appends_pure|intros d].
    apply appends_bind; [apply appends_emit|intros _].
    destruct (registry_Generic E d).
    + apply appends_bind; [apply appends_emit|intros _]. apply (appends_pure (Ok _)).
    + apply IH.
Qed.

Lemma appends_rewriteImageLock o ref : appends (rewriteImageLock E o ref).
Proof.
  unfold rewriteImageLock.
  apply appends_bind.
  { apply appends_wrapM. unfold ReadImageLockFile.
    apply appends_bind; [apply appends_ReadFile|intros bs]. apply appends_pure. }
  intros lockFile. destruct (_ =? _)%nat; [apply (appends_pure (Ok tt))|].
  apply appends_bind; [apply appends_emit|intros _].
  apply appends_bind; [apply appends_relocateLoop|intros [news|]].
  - apply appends_bind; [apply appends_pure|intros bs].
    apply appends_bind; [apply appends_emit|intros _]. apply appends_WriteFile.
  - apply (appends_pure (Ok tt)).
Qed.

Lemma appends_pullSelected o ref img : appends (pullSelected E o ref img).
Proof.
  unfold pullSelected.
  apply appends_bind; [apply appends_pure|intros manifest].
  apply appends_bind; [apply appends_check|intros _].
  apply appends_bind; [apply appends_pure|intros digest].
  apply appends_bind; [apply appends_emit|intros _].
  destruct (_ || _); [apply (appends_pure (Err _))|].
  apply appends_bind; [apply appends_fsCall|intros err].
  apply appends_bind; [apply appends_check|intros _].
  apply appends_bind; [apply appends_fsCall|intros err1].
  apply appends_bind; [apply appends_check|intros _].
  apply appends_bind; [apply appends_fsCall|intros err2].
  apply appends_bind; [apply appends_check|intros _].
  destruct (negb _); [|apply (appends_pure (Ok tt))].
  apply appends_wrapM, appends_rewriteImageLock.
Qed.

End PullFacts.

Section PullImages.
Import Cmd PullSpec.

Lemma Run_selected E o w inputRef w1 ref img rest :
  getRefFromFlags E o w = (Ok inputRef, w1) ->
  ParseReference E inputRef = Ok ref ->
  registry_Images E ref = Ok (img :: rest) ->
  Run E o w =
  pullSelected E o ref img
    {| files := files w1;
       events := events w1 ++ EvImages ref ::
                   match rest with [] => [] | _ => [UILine lineMultiple] end |}.
Proof.
  intros Hget Hparse Himgs. unfold Run.
  rewrite (bind_ok _ _ _ _ _ Hget).
  rewrite (bind_ok _ _ w1 ref w1) by (rewrite liftR_run, Hparse; reflexivity).
  rewrite (bind_ok _ _ _ _ _ (emit_run _ _)).
  erewrite bind_ok by (rewrite liftR_run, Himgs; reflexivity).
  cbv beta iota. destruct rest as [|img2 rest]; cbn [length Nat.ltb Nat.leb].
  - erewrite bind_ok by reflexivity. reflexivity.
  - erewrite bind_ok by apply emit_run. cbn [files events].
    rewrite <- app_assoc. reflexivity.
Qed.

Lemma allowed_test path :
  ~ disallowed path ->
  String.eqb path "/" || String.eqb path "." || String.eqb path ".." = false.
Proof.
  intros Hd. unfold disallowed in Hd.
  destruct (String.eqb_spec path "/") as [->|_]; [exfalso; auto|].
  destruct (String.eqb_spec path ".") as [->|_]; [exfalso; auto|].
  destruct (String.eqb_spec path "..") as [->|_]; [exfalso; auto|].
  reflexivity.
Qed.

Lemma fsCall_run ev op w :
  fsCall ev op w
  = (Ok (snd (op (files w))),
     {| files := fst (op (files w)); events := events w ++ [ev] |}).
Proof.
  unfold fsCall, bind, emit. cbn [files events].
  destruct (op (files w)); reflexivity.
Qed.

(** Once the first image is selected and its manifest, intent check and
    digest are fine, a pull into an allowed directory whose removal,
    creation and extraction succeed has extracted that image; what is left
    is the rewrite of the lock document, for a bundle. *)
Lemma pullSelected_extracts E o ref img m digest fs evs fs1 fs2 fs3 :
  Manifest img = Ok m ->
  checkIntent E o m = None ->
  Digest_of img = Ok digest ->
  ~ disallowed (OutputPath o) ->
  os_RemoveAll E (OutputPath o) fs = (fs1, None) ->
  os_MkdirAll E (OutputPath o) 448 fs1 = (fs2, None) ->
  AsDirectory E (OutputPath o) img fs2 = (fs3, None) ->
  pullSelected E o ref img {| files := fs; events := evs |}
  = (if negb (String.eqb (Bundle o) "")
     then wrapM "Rewriting image lock file: " (rewriteImageLock E o ref)
     else ret tt)
      {| files := fs3;
         events := evs ++ [UILine ("Pulling image '" +:+ Context_Name ref +:+ "@"
                                     +:+ digest +:+ "'" +:+ nl);
                           EvRemoveAll (OutputPath o);
                           EvMkdirAll (OutputPath o) 448;
                           EvAsDirectory (OutputPath o)] |}.
Proof.
  intros Hman Hint Hdig Hallowed Hrm Hmk Hex. unfold pullSelected.
  erewrite bind_ok by (rewrite liftR_run, Hman; reflexivity).
  rewrite Hint. erewrite bind_ok by reflexivity.
  erewrite bind_ok by (rewrite liftR_run, Hdig; reflexivity).
  erewrite bind_ok by apply emit_run.
  rewrite (allowed_test _ Hallowed).
  erewrite bind_ok by apply fsCall_run. cbn [files events]. rewrite Hrm. cbn [fst snd].
  erewrite bind_ok by reflexivity.
  erewrite bind_ok by apply fsCall_run. cbn [files events]. rewrite Hmk. cbn [fst snd].
  erewrite bind_ok by reflexivity.
  erewrite bind_ok by apply fsCall_run. cbn [files events]. rewrite Hex. cbn [fst snd].
  erewrite bind_ok by reflexivity.
  rewrite <- !app_assoc. reflexivity.
Qed.

(** C9. Number of images the reference resolves to.  After the reference
    is obtained and parsed: with zero images the pull fails.  With more
    than one image the pull does what a pull of the first image alone does
    -- same result, same files on disk, same effects in the same order --
    except for the one notice that the first image is extracted, so the
    other images play no part and their number is no cause of failure.
    And the first image is indeed extracted: when its manifest, the intent
    check and its digest are fine, the output directory is allowed and its
    removal, its creation and the extraction of the first image succeed,
    the pull has, after the notice, removed and created the output
    directory and extracted the first image of the list into it; a pull
    that is not of a bundle then returns success, a pull of a bundle goes
    on to rewrite the lock document and returns what that returns. *)
Theorem multiple_images_first_only (E : Env) (o : PullOptions) (w w1 : World)
    (inputRef : string) (ref : Reference) :
  getRefFromFlags E o w = (Ok inputRef, w1) ->
  ParseReference E inputRef = Ok ref ->
  (registry_Images E ref = Ok [] ->
     fst (Run E o w) = Err msgNoImages) /\
  (forall img rest,
     registry_Images E ref = Ok (img :: rest) -> rest <> [] ->
     exists r fs' pre post,
       Run E o w
       = (r, {| files := fs'; events := pre ++ UILine lineMultiple :: post |}) /\
       Run (withImages E (fun _ => Ok [img])) o w
       = (r, {| files := fs'; events := pre ++ post |})) /\
  (forall img rest m digest fs1 fs2 fs3,
     registry_Images E ref = Ok (img :: rest) -> rest <> [] ->
     Manifest img = Ok m ->
     checkIntent E o m = None ->
     Digest_of img = Ok digest ->
     ~ disallowed (OutputPath o) ->
     os_RemoveAll E (OutputPath o) (files w1) = (fs1, None) ->
     os_MkdirAll E (OutputPath o) 448 fs1 = (fs2, None) ->
     AsDirectory E (OutputPath o) img fs2 = (fs3, None) ->
     let extracted :=
       {| files := fs3;
          events := events w1 ++
                    [EvImages ref;
                     UILine lineMultiple;
                     UILine ("Pulling image '" +:+ Context_Name ref +:+ "@"
                               +:+ digest +:+ "'" +:+ nl);
                     EvRemoveAll (OutputPath o);
                     EvMkdirAll (OutputPath o) 448;
                     EvAsDirectory (OutputPath o)] |} in
     (Bundle o = "" -> Run E o w = (Ok tt, extracted)) /\
     (Bundle o <> "" ->
        Run E o w
        = wrapM "Rewriting image lock file: " (rewriteImageLock E o ref) extracted)).
Proof.
  intros Hget Hparse. split; [|split].
  - intros Himgs. unfold Run.
    rewrite (bind_ok _ _ _ _ _ Hget).
    rewrite (bind_ok _ _ w1 ref w1) by (rewrite liftR_run, Hparse; reflexivity).
    rewrite (bind_ok _ _ _ _ _ (emit_run _ _)).
    erewrite bind_ok by (rewrite liftR_run, Himgs; reflexivity).
    reflexivity.
  - intros img rest Himgs Hrest.
    destruct (appends_pullSelected E o ref img (files w1)) as (r & fs' & delta & Htail).
    exists r, fs', (events w1 ++ [EvImages ref]), delta. split.
    + rewrite (Run_selected E o w inputRef w1 ref img rest Hget Hparse Himgs).
      destruct rest; [contradiction|]. rewrite Htail.
      rewrite <- !app_assoc. reflexivity.
    + rewrite (Run_selected (withImages E (fun _ => Ok [img])) o w inputRef w1 ref img []
                 Hget Hparse eq_refl).
      change (pullSelected (withImages E (fun _ => Ok [img])) o ref img)
        with (pullSelected E o ref img).
      rewrite Htail. rewrite <- !app_assoc. reflexivity.
  - intros img rest m digest fs1 fs2 fs3 Himgs Hrest Hman Hint Hdig Hallowed Hrm Hmk Hex.
    cbv zeta.
    rewrite (Run_selected E o w inputRef w1 ref img rest Hget Hparse Himgs).
    destruct rest as [|img2 rest]; [contradiction|].
    rewrite (pullSelected_extracts E o ref img m digest _ _ fs1 fs2 fs3
               Hman Hint Hdig Hallowed Hrm Hmk Hex).
    rewrite <- !app_assoc. cbn [app].
    split; intros Hb.
    + rewrite Hb. reflexivity.
    + destruct (String.eqb_spec (Bundle o) "") as [Heq|_]; [contradiction|]. reflexivity.
Qed.

End PullImages.

(* ===================================================================== *)
(** ** The statements about [pull.go] on the sample environment *)

Section PullSamples.
Import Cmd PullSpec Sample.

Let bundleRef : Reference := {| Context_Name := "/tmp/b" |}.
Let pullBundle : PullOptions := opts "" "/tmp/b" "" "/tmp/out".
Let lockPath : string := "/tmp/out/.imgpkg/images.yml".

(** Only the first of the two entries of [lockTwo] is in the bundle's
    repository: the rewrite is skipped and the document stays as it is. *)
Lemma rewrite_all_or_nothing_witness :
  exists checked,
    checked `prefix_of` IL_Images lockTwo /\
    rewriteImageLock (env ["/tmp/b@sha256:aa"] [bundleImg]) pullBundle bundleRef (disk "two")
    = (Ok tt,
       {| files := files (disk "two");
          events := [EvReadFile lockPath; UILine lineLocating]
                      ++ queries (env ["/tmp/b@sha256:aa"] [bundleImg]) "/tmp/b" checked
                      ++ [UILine lineSkipping] |}).
Proof.
  destruct (rewrite_all_or_nothing (env ["/tmp/b@sha256:aa"] [bundleImg])
              pullBundle bundleRef (disk "two") "two" lockTwo)
    as (Habort & _ & _).
  - vm_compute. reflexivity.
  - reflexivity.
  - discriminate.
  - apply (Habort [desc "index.docker.io/a/app@sha256:aa" "v1" "app"]
                  (desc "gcr.io/b/db@sha256:bb" "v2" "db") []).
    + reflexivity.
    + constructor; [|constructor].
      exists {| DigestStr := "/tmp/b@sha256:aa" |}. reflexivity.
    + exists {| DigestStr := "/tmp/b@sha256:bb" |}. split; [reflexivity|discriminate].
Defined.

(** An image-intent pull of a bundle manifest is told to use [-b]. *)
Lemma intent_check_by_presence_witness :
  fst (Run (env [] [bundleImg]) (opts "repo/app" "" "" "/tmp/out") (disk "none"))
  = Err msgUseBundleFlag.
Proof.
  destruct (intent_check_by_presence (env [] [bundleImg])
              (opts "repo/app" "" "" "/tmp/out") (disk "none") (disk "none")
              "repo/app" {| Context_Name := "repo/app" |} bundleImg []
              {| Annotations := {[ "dev.carvel.imgpkg.bundle" := "true" ]} |}
              eq_refl eq_refl eq_refl eq_refl)
    as (Himage & _).
  apply Himage.
  - discriminate.
  - exists "true". vm_compute. reflexivity.
Defined.

(** C2 (as claimed) fails: with image intent, a manifest whose bundle
    annotation is "false" -- not the literal "true" -- is rejected all the
    same, so a value other than "true" is not without effect. *)
Lemma intent_check_other_value_rejected :
  let E := env [] [manifestWith {[ "dev.carvel.imgpkg.bundle" := "false" ]}] in
  let o := opts "repo/app" "" "" "/tmp/out" in
  fst (Run E o (disk "none")) = Err msgUseBundleFlag /\
  ~ (forall m : v1_Manifest,
        Annotations m !! BundleAnnotation E <> Some "true" ->
        checkIntent E o m = None).
Proof.
  split.
  - vm_compute. reflexivity.
  - intros Hclaim.
    specialize (Hclaim {| Annotations := {[ "dev.carvel.imgpkg.bundle" := "false" ]} |}).
    assert (Hne : Annotations {| Annotations := {[ "dev.carvel.imgpkg.bundle" := "false" ]} |}
                    !! BundleAnnotation (env [] [manifestWith {[ "dev.carvel.imgpkg.bundle" := "false" ]}])
                  <> Some "true") by (vm_compute; discriminate).
    specialize (Hclaim Hne). vm_compute in Hclaim. discriminate.
Qed.

(** Both the image flag and the bundle flag are given. *)
Lemma ref_source_exclusive_witness :
  numSources (opts "repo/app" "repo/bundle" "" "/tmp/out") <> 1%nat /\
  Run (env [] [plainImg]) (opts "repo/app" "repo/bundle" "" "/tmp/out") (disk "none")
  = (Err msgManySources, disk "none").
Proof.
  split; [discriminate|].
  apply (ref_source_exclusive (env [] [plainImg])
           (opts "repo/app" "repo/bundle" "" "/tmp/out") (disk "none")).
  discriminate.
Defined.

(** A bundle pull into ["/"]. *)
Lemma disallowed_output_untouched_witness :
  exists msg new,
    Run (env [] [bundleImg]) (opts "" "/tmp/b" "" "/") (disk "none")
    = (Err msg, {| files := files (disk "none"); events := events (disk "none") ++ new |}) /\
    Forall (fun ev => mutates ev = false) new /\
    msg = msgDisallowed.
Proof.
  destruct (disallowed_output_untouched (env [] [bundleImg])
              (opts "" "/tmp/b" "" "/") (disk "none") (or_introl eq_refl))
    as (msg & new & HRun & Hnew & Hmsg).
  exists msg, new. split; [exact HRun|]. split; [exact Hnew|].
  apply (Hmsg "/tmp/b" (disk "none") {| Context_Name := "/tmp/b" |} bundleImg []
              {| Annotations := {[ "dev.carvel.imgpkg.bundle" := "true" ]} |} "sha256:00");
    reflexivity.
Defined.

(** The extracted bundle has a lock document without entries. *)
Lemma empty_lock_is_noop_witness :
  rewriteImageLock (env [] [bundleImg]) pullBundle bundleRef (disk "none")
  = (Ok tt, {| files := files (disk "none"); events := [EvReadFile lockPath] |}).
Proof.
  apply (empty_lock_is_noop (env [] [bundleImg]) pullBundle bundleRef (disk "none")
           "none" lockNone).
  - vm_compute. reflexivity.
  - reflexivity.
  - reflexivity.
Defined.

(** The reference resolves to two images: the run is that on the first
    alone plus the notice, and an image pull of two plain images extracts
    the first into the output directory. *)
Lemma multiple_images_first_only_witness :
  (exists r fs' pre post,
    Run (env [] [bundleImg; plainImg]) pullBundle (disk "none")
    = (r, {| files := fs'; events := pre ++ UILine lineMultiple :: post |}) /\
    Run (withImages (env [] [bundleImg; plainImg]) (fun _ => Ok [bundleImg]))
        pullBundle (disk "none")
    = (r, {| files := fs'; events := pre ++ post |})) /\
  Run (env [] [plainImg; bundleImg]) (opts "repo/app" "" "" "/tmp/out") (disk "none")
  = (Ok tt,
     {| files := {[ "/tmp/out/.imgpkg/images.yml" := "two" ]};
        events := [EvImages {| Context_Name := "repo/app" |};
                   UILine lineMultiple;
                   UILine ("Pulling image 'repo/app@sha256:00'" +:+ nl);
                   EvRemoveAll "/tmp/out";
                   EvMkdirAll "/tmp/out" 448;
                   EvAsDirectory "/tmp/out"] |}).
Proof.
  split.
  - destruct (multiple_images_first_only (env [] [bundleImg; plainImg]) pullBundle
                (disk "none") (disk "none") "/tmp/b" bundleRef eq_refl eq_refl)
      as (_ & Hmany & _).
    apply (Hmany bundleImg [plainImg]); [reflexivity|discriminate].
  - destruct (multiple_images_first_only (env [] [plainImg; bundleImg])
                (opts "repo/app" "" "" "/tmp/out")
                (disk "none") (disk "none") "repo/app" {| Context_Name := "repo/app" |}
                eq_refl eq_refl)
      as (_ & _ & Hfirst).
    assert (Hallowed : ~ disallowed (OutputPath (opts "repo/app" "" "" "/tmp/out")))
      by (intros [H|[H|H]]; discriminate H).
    destruct (Hfirst plainImg [bundleImg] {| Annotations := ∅ |} "sha256:00"
                (delete "/tmp/out/.imgpkg/images.yml" (files (disk "none")))
                (delete "/tmp/out/.imgpkg/images.yml" (files (disk "none")))
                (<["/tmp/out/.imgpkg/images.yml" := "two"]>
                   (delete "/tmp/out/.imgpkg/images.yml" (files (disk "none"))))
                eq_refl ltac:(discriminate) eq_refl eq_refl eq_refl Hallowed
                eq_refl eq_refl eq_refl)
      as (Himage & _).
    rewrite (Himage eq_refl). reflexivity.
Defined.

End PullSamples.

(* ===================================================================== *)
(** ** Facts about [tar_image.go] *)

Section NodeInduction.
Import Image.
Variable P : Node -> Prop.
Hypothesis HFile : forall k a content openErr, P (File k a content openErr).
Hypothesis HDir : forall a size readErr children,
    Forall (fun c => P (snd c)) children -> P (Dir a size readErr children).
Hypothesis HBroken : forall e, P (Broken e).

Fixpoint Node_ind (n : Node) : P n :=
  match n with
  | File k a content openErr => HFile k a content openErr
  | Dir a size readErr children =>
      HDir a size readErr children
        ((fix go (cs : list (string * Node)) : Forall (fun c => P (snd c)) cs :=
            match cs with
            | [] => @List.Forall_nil _ _
            | c :: rest => @List.Forall_cons _ _ c rest (Node_ind (snd c)) (go rest)
            end) children)
  | Broken e => HBroken e
  end.

End NodeInduction.

Section PathFacts.
Import Image TarSpec.

Lemma append_cons x (a b : string) : String x a +:+ b = String x (a +:+ b).
Proof. reflexivity. Qed.

Lemma append_nil_l (a : string) : "" +:+ a = a.
Proof. reflexivity. Qed.

Lemma append_assoc (a b c : string) : (a +:+ b) +:+ c = a +:+ (b +:+ c).
Proof.
  induction a as [|x a IH]; [reflexivity|]. rewrite !append_cons, IH. reflexivity.
Qed.

Lemma append_nil_r (a : string) : a +:+ "" = a.
Proof.
  induction a as [|x a IH]; [reflexivity|]. rewrite append_cons, IH. reflexivity.
Qed.

Lemma append_self_inv (p s : string) : p +:+ s = p -> s = "".
Proof.
  induction p as [|x p IH]; [tauto|]. rewrite append_cons. intros H.
  injection H as H. auto.
Qed.

Lemma stripPrefix_app (p s : string) : stripPrefix p (p +:+ s) = Some s.
Proof.
  induction p as [|x p IH]; [reflexivity|]. rewrite append_cons. cbn [stripPrefix].
  rewrite Ascii.eqb_refl. exact IH.
Qed.

(** Splitting an equation between two concatenations. *)
Lemma append_eq_append (a b c d : string) :
  a +:+ b = c +:+ d ->
  (exists m, c = a +:+ m /\ b = m +:+ d) \/ (exists m, a = c +:+ m /\ d = m +:+ b).
Proof.
  revert c. induction a as [|x a IH]; intros c H.
  - left. exists c. auto.
  - destruct c as [|y c].
    + right. exists (String x a). auto.
    + rewrite !append_cons in H. injection H as -> H.
      destruct (IH c H) as [(m & -> & ->)|(m & -> & ->)].
      * left. exists m. auto.
      * right. exists m. auto.
Qed.

Lemma hasSlash_app (a b : string) : hasSlash (a +:+ b) = hasSlash a || hasSlash b.
Proof.
  induction a as [|x a IH]; [reflexivity|]. rewrite append_cons. cbn [hasSlash].
  rewrite IH, orb_assoc. reflexivity.
Qed.

Lemma Rel_at path suf :
  okSuf suf -> filepath_Rel path (path +:+ suf) = Ok (relOf suf).
Proof.
  intros [->|(rel & ->)]; unfold filepath_Rel.
  - rewrite append_nil_r, String.eqb_refl. reflexivity.
  - destruct (String.eqb_spec (path +:+ "/" +:+ rel) path) as [Heq|_].
    + apply append_self_inv in Heq. discriminate.
    + rewrite <- append_assoc, stripPrefix_app. reflexivity.
Qed.

Lemma Join_at path suf name :
  filepath_Join (path +:+ suf) name = path +:+ (suf +:+ "/" +:+ name).
Proof. unfold filepath_Join. apply append_assoc. Qed.

Lemma validName_spec name : validName name = true -> name <> "" /\ hasSlash name = false.
Proof.
  unfold validName. intros H. apply andb_true_iff in H as [H1 H2].
  apply negb_true_iff in H1, H2. apply String.eqb_neq in H1. auto.
Qed.

Lemma okSuf_child suf name : okSuf suf -> okSuf (suf +:+ "/" +:+ name).
Proof.
  intros [->|(rel & ->)]; right.
  - exists name. reflexivity.
  - exists (rel +:+ "/" +:+ name). reflexivity.
Qed.

Lemma relOf_child suf name :
  okSuf suf ->
  relOf (suf +:+ "/" +:+ name) = if String.eqb suf "" then name else relOf suf +:+ "/" +:+ name.
Proof. intros [->|(rel & ->)]; reflexivity. Qed.

Lemma baseScan_noSlash s : forall last cur,
  hasSlash last = false -> hasSlash cur = false ->
  hasSlash (baseScan s last cur) = false.
Proof.
  induction s as [|c s IH]; intros last cur Hl Hc; cbn [baseScan].
  - destruct (String.eqb cur ""); assumption.
  - destruct (Ascii.eqb c slash) eqn:Hcs.
    + apply IH; [destruct (String.eqb cur ""); assumption|reflexivity].
    + apply IH; [assumption|]. rewrite hasSlash_app, Hc. cbn [hasSlash orb].
      rewrite Hcs. reflexivity.
Qed.

Lemma Base_noSlash path :
  filepath_Base path = "/" \/ hasSlash (filepath_Base path) = false.
Proof.
  unfold filepath_Base. destruct (String.eqb path ""); [right; reflexivity|].
  pose proof (baseScan_noSlash path "" "" eq_refl eq_refl) as H.
  destruct (baseScan path "" ""); [left; reflexivity|right; exact H].
Qed.

End PathFacts.

Section TarFacts.
Import Image TarSpec.

(** *** File modes *)

Lemma perm_bits_off (p m : Z) : Z.land ModePerm m = 0 -> Z.land (Z.land p ModePerm) m = 0.
Proof. intros H. rewrite <- Z.land_assoc, H. apply Z.land_0_r. Qed.

Lemma info_IsDir_Dir a size readErr children :
  info_IsDir (Dir a size readErr children) = true.
Proof.
  unfold info_IsDir, info_Mode.
  rewrite Z.land_lor_distr_l, (perm_bits_off _ ModeDir eq_refl), Z.lor_0_r.
  reflexivity.
Qed.

Lemma info_IsDir_File k a content openErr :
  info_IsDir (File k a content openErr) = false.
Proof.
  unfold info_IsDir, info_Mode.
  rewrite Z.land_lor_distr_l, (perm_bits_off _ ModeDir eq_refl), Z.lor_0_r.
  destruct k; reflexivity.
Qed.

Lemma mode_type_File k a content openErr :
  (Z.land (info_Mode (File k a content openErr)) ModeType =? 0) = isRegular k.
Proof.
  unfold info_Mode.
  rewrite Z.land_lor_distr_l, (perm_bits_off _ ModeType eq_refl), Z.lor_0_r.
  destruct k; reflexivity.
Qed.

Lemma isExcluded_true i rel : isExcluded i rel = true <-> In rel (excludePaths i).
Proof.
  unfold isExcluded. induction (excludePaths i) as [|d ds IH]; cbn [isExcludedIn In].
  - split; [discriminate|tauto].
  - destruct (String.eqb_spec d rel) as [->|Hne]; [tauto|].
    rewrite IH. split; [tauto|]. intros [H|H]; [contradiction|assumption].
Qed.

Lemma isExcluded_false i rel : isExcluded i rel = false <-> ~ In rel (excludePaths i).
Proof.
  rewrite <- isExcluded_true. destruct (isExcluded i rel); split; congruence.
Qed.

(** *** What the callback does at each kind of node *)

Lemma walkFn_failed i path p info e s :
  walkFn i path p info (Some e) s = (Some (Errorf e), s).
Proof. reflexivity. Qed.

Lemma walkFn_Dir i path p a size readErr children rel s :
  filepath_Rel path p = Ok rel ->
  walkFn i path p (Dir a size readErr children) None s =
  if isExcluded i rel then (Some SkipDir, s)
  else (None, {| written := written s ++ [tar.RHeader (dirHeader rel size)];
                 infoLog := infoLog s ++ ["dir: " +:+ rel +:+ nl] |}).
Proof.
  intros Hrel. unfold walkFn. rewrite Hrel, info_IsDir_Dir.
  unfold addDirToTar. destruct (isExcluded i rel); reflexivity.
Qed.

Lemma addFileToTar_File i fullPath rel k a content openErr s :
  addFileToTar i fullPath rel (File k a content openErr) s =
  if isExcluded i rel then (None, s)
  else match openErr with
       | Some e => (Some (Errorf e),
                    {| written := written s; infoLog := infoLog s ++ ["file: " +:+ rel +:+ nl] |})
       | None =>
           (None, {| written := written s ++ [tar.RHeader (fileHeader rel content);
                                              tar.RData content];
                     infoLog := infoLog s ++ ["file: " +:+ rel +:+ nl] |})
       end.
Proof.
  unfold addFileToTar. destruct (isExcluded i rel); [reflexivity|].
  destruct openErr; [reflexivity|].
  unfold os_Open, WriteHeader, io_Copy, logLine, fileHeader. cbn.
  rewrite <- app_assoc. reflexivity.
Qed.

Lemma walkFn_File i path p k a content openErr rel s :
  filepath_Rel path p = Ok rel ->
  walkFn i path p (File k a content openErr) None s =
  if isRegular k then addFileToTar i p rel (File k a content openErr) s
  else (Some (Errorf (msgNotRegular p)), s).
Proof.
  intros Hrel. unfold walkFn. rewrite Hrel, info_IsDir_File, mode_type_File.
  destruct (isRegular k); reflexivity.
Qed.

(** *** Every header is normalized *)

Lemma allHeaders_snoc Q s rs log' :
  allHeaders Q s ->
  (forall h, In (tar.RHeader h) rs -> Q h) ->
  allHeaders Q {| written := written s ++ rs; infoLog := log' |}.
Proof.
  intros Hs Hrs h Hin. cbn in Hin. apply in_app_or in Hin as [Hin|Hin]; auto.
Qed.

Lemma allHeaders_log Q s log' :
  allHeaders Q s -> allHeaders Q {| written := written s; infoLog := log' |}.
Proof. intros Hs h Hin. apply Hs. exact Hin. Qed.

Lemma normalized_dir rel size : normalized (dirHeader rel size).
Proof. split; [reflexivity|]. left. split; reflexivity. Qed.

Lemma normalized_file rel content : normalized (fileHeader rel content).
Proof. split; [reflexivity|]. right. split; reflexivity. Qed.






(** *** The order of the walk does not depend on the order on disk *)

Lemma leb_trans (a b c : string) :
  String.leb a b = true -> String.leb b c = true -> String.leb a c = true.
Proof.
  revert b c. induction a as [|x a IH]; intros [|y b] [|z c]; unfold String.leb;
    cbn [String.compare]; try (intros; reflexivity || discriminate).
  unfold Ascii.compare.
  destruct (N.compare_spec (N_of_ascii x) (N_of_ascii y)) as [Hxy|Hxy|Hxy];
    destruct (N.compare_spec (N_of_ascii y) (N_of_ascii z)) as [Hyz|Hyz|Hyz];
    destruct (N.compare_spec (N_of_ascii x) (N_of_ascii z)) as [Hxz|Hxz|Hxz];
    try lia; try (intros; reflexivity || discriminate).
  exact (IH b c).
Qed.

#[local] Instance strLe_total : Total strLe.
Proof. intros a b. apply String.leb_total. Qed.

#[local] Instance strLe_trans : Transitive strLe.
Proof. intros a b c. apply leb_trans. Qed.

#[local] Instance strLe_antisym : AntiSymm (=) strLe.
Proof. intros a b. apply String.leb_antisym. Qed.









(** *** The archive up to the sizes of the directories *)


Lemma sizeless_snoc s rs log' :
  sizeless {| written := written s ++ rs; infoLog := log' |}
  = {| written := written (sizeless s) ++ map withoutDirSize rs; infoLog := log' |}.
Proof. unfold sizeless. cbn [written infoLog]. rewrite map_app. reflexivity. Qed.











(** C10. A bare file input goes by its base name.  When an input path
    stats as a regular file, the loop of [createTarball] handles it through
    [filepath.Base]: if the base name is an exclusion pattern the file is
    passed over -- no entry, no log line, no error, it is not even opened --
    and otherwise, the file being readable, one regular-file entry named by
    the base name is written with the content of the file. *)
Theorem bare_file_by_base_name (i : TarImage) (fs : FS) (path : string)
    (a : Attr) (content : string) (openErr : error) (rest : list string) (s : St) :
  stat fs path = File Regular a content openErr ->
  let base := filepath_Base path in
  (isExcluded i base = true ->
     createTarballFrom i fs (path :: rest) s = createTarballFrom i fs rest s) /\
  (isExcluded i base = false -> openErr = None ->
     createTarballFrom i fs (path :: rest) s
     = createTarballFrom i fs rest
         {| written := written s ++ [tar.RHeader (fileHeader base content);
                                     tar.RData content];
            infoLog := infoLog s ++ ["file: " +:+ base +:+ nl] |}).
Proof.
  intros Hstat base. cbn [createTarballFrom]. unfold os_Stat. rewrite Hstat.
  rewrite info_IsDir_File, addFileToTar_File. fold base. split.
  - intros ->. reflexivity.
  - intros -> ->. reflexivity.
Qed.

(** *** Names in the archive keep clear of the exclusion patterns *)

Lemma clear_of_anc i suf :
  ancClear i suf -> isExcluded i (relOf suf) = false -> clearName i (relOf suf).
Proof.
  intros Hanc Hex d Hd Hne [Heq|(rest & Heq)].
  - apply isExcluded_false in Hex. apply Hex. rewrite Heq. exact Hd.
  - exact (Hanc d Hd Hne rest Heq).
Qed.

Lemma ancClear_root i : ancClear i "".
Proof.
  intros d _ Hne rest. cbn [relOf]. destruct d as [|x d]; [contradiction|].
  rewrite append_cons. intros H. injection H as _ H.
  destruct d; discriminate.
Qed.

Lemma relOf_slash rel : relOf ("/" +:+ rel) = rel.
Proof. reflexivity. Qed.

Lemma eqb_slash_nil rel : String.eqb ("/" +:+ rel) "" = false.
Proof. reflexivity. Qed.

Lemma cons_eq_append x (a : string) y (m t : string) :
  String x a = String y m +:+ t -> x = y /\ a = m +:+ t.
Proof. rewrite append_cons. intros H. injection H as -> ->. auto. Qed.

Lemma slash_in_tail (m rest : string) : hasSlash (m +:+ "/" +:+ rest) = true.
Proof. rewrite hasSlash_app. cbn. apply orb_true_r. Qed.

Lemma ancClear_child i suf name :
  okSuf suf -> validName name = true ->
  ancClear i suf -> isExcluded i (relOf suf) = false ->
  ancClear i (suf +:+ "/" +:+ name).
Proof.
  intros Hsuf Hname Hanc Hex d Hd Hne rest.
  apply validName_spec in Hname as [_ Hslash].
  rewrite (relOf_child _ _ Hsuf).
  destruct Hsuf as [->|(rel & ->)].
  - cbn [String.eqb]. intros ->. rewrite slash_in_tail in Hslash. discriminate.
  - unfold ancClear in Hanc. rewrite relOf_slash in Hanc, Hex |- *.
    rewrite eqb_slash_nil. intros Heq.
    apply append_eq_append in Heq as [(m & -> & Hm)|(m & -> & Hm)].
    + destruct m as [|y m].
      * rewrite append_nil_r in Hd. apply isExcluded_false in Hex. contradiction.
      * apply (cons_eq_append _ name) in Hm as [_ ->].
        rewrite slash_in_tail in Hslash. discriminate.
    + destruct m as [|y m].
      * rewrite append_nil_r in Hex. apply isExcluded_false in Hex. contradiction.
      * apply (cons_eq_append _ rest) in Hm as [<- _].
        exact (Hanc d Hd Hne m eq_refl).
Qed.

Lemma addFileToTar_clear i fullPath rel info s :
  (isExcluded i rel = false -> clearName i rel) ->
  allHeaders (fun h => clearName i (tar.Name h)) s ->
  allHeaders (fun h => clearName i (tar.Name h)) (snd (addFileToTar i fullPath rel info s)).
Proof.
  intros Hrel Hs. unfold addFileToTar. destruct (isExcluded i rel); [exact Hs|].
  destruct (os_Open info) as [bytes|e]; cbn [snd].
  - unfold WriteHeader, io_Copy, logLine. cbn.
    intros h Hin. rewrite <- app_assoc in Hin. apply in_app_or in Hin as [Hin|Hin]; [auto|].
    destruct Hin as [Hin|[Hin|[]]]; [|discriminate].
    injection Hin as <-. apply Hrel. reflexivity.
  - apply allHeaders_log. exact Hs.
Qed.

Lemma walkFn_clear i path suf info err s :
  okSuf suf -> ancClear i suf ->
  allHeaders (fun h => clearName i (tar.Name h)) s ->
  allHeaders (fun h => clearName i (tar.Name h))
    (snd (walkFn i path (path +:+ suf) info err s)).
Proof.
  intros Hsuf Hanc Hs. unfold walkFn. destruct err; [exact Hs|].
  rewrite (Rel_at _ _ Hsuf). destruct (info_IsDir info).
  - destruct (isExcluded i (relOf suf)) eqn:Hex; [exact Hs|].
    unfold addDirToTar. rewrite Hex. unfold WriteHeader, logLine. cbn.
    intros h Hin. apply in_app_or in Hin as [Hin|[Hin|[]]]; [auto|].
    injection Hin as <-. apply clear_of_anc; assumption.
  - destruct (negb _); [exact Hs|]. apply addFileToTar_clear; [|exact Hs].
    apply clear_of_anc. exact Hanc.
Qed.

Lemma wfNode_children a size readErr children :
  wfNode (Dir a size readErr children) = true ->
  Forall (fun c => validName (fst c) = true /\ wfNode (snd c) = true) children.
Proof.
  cbn [wfNode]. intros H. apply List.Forall_forall. intros c Hc.
  rewrite List.forallb_forall in H. specialize (H c Hc).
  apply andb_true_iff in H. exact H.
Qed.

Lemma eachName_clear i path suf children :
  okSuf suf -> ancClear i suf -> isExcluded i (relOf suf) = false ->
  Forall (fun c => validName (fst c) = true /\ wfNode (snd c) = true) children ->
  Forall (fun c => wfNode (snd c) = true -> forall suf' s,
            okSuf suf' -> ancClear i suf' ->
            allHeaders (fun h => clearName i (tar.Name h)) s ->
            allHeaders (fun h => clearName i (tar.Name h))
              (snd (walk (walkFn i path) (path +:+ suf') (snd c) s))) children ->
  forall s, allHeaders (fun h => clearName i (tar.Name h)) s ->
    allHeaders (fun h => clearName i (tar.Name h))
      (snd (eachName (walkFn i path) (walk (walkFn i path)) (path +:+ suf) children s)).
Proof.
  intros Hsuf Hanc Hex Hwf IH. induction children as [|[name child] rest IHrest];
    intros s Hs; cbn [eachName]; [exact Hs|].
  apply List.Forall_cons_iff in Hwf as [[Hname Hchild] Hwf].
  apply List.Forall_cons_iff in IH as [Hc IH]. cbn [fst snd] in Hname, Hchild, Hc.
  specialize (IHrest Hwf IH). rewrite Join_at.
  pose proof (okSuf_child suf name Hsuf) as Hsuf'.
  pose proof (ancClear_child i suf name Hsuf Hname Hanc Hex) as Hanc'.
  specialize (Hc Hchild _ s Hsuf' Hanc' Hs).
  destruct child as [k a content openErr|a size readErr cs|e].
  - destruct (walk _ _ _ s) as [[[| |]|] s']; cbn [snd] in Hc; try exact Hc.
    + rewrite info_IsDir_File. exact Hc.
    + apply IHrest. exact Hc.
  - destruct (walk _ _ _ s) as [[[| |]|] s']; cbn [snd] in Hc; try exact Hc.
    + rewrite info_IsDir_Dir. apply IHrest. exact Hc.
    + apply IHrest. exact Hc.
  - rewrite walkFn_failed. exact Hs.
Qed.

Lemma walk_clear i path info :
  wfNode info = true -> forall suf s,
    okSuf suf -> ancClear i suf ->
    allHeaders (fun h => clearName i (tar.Name h)) s ->
    allHeaders (fun h => clearName i (tar.Name h))
      (snd (walk (walkFn i path) (path +:+ suf) info s)).
Proof.
  induction info as [k a content openErr|a size readErr children IH|e] using Node_ind;
    intros Hwf suf s Hsuf Hanc Hs; cbn [walk].
  - apply walkFn_clear; assumption.
  - destruct readErr as [e|].
    + rewrite walkFn_failed. exact Hs.
    + rewrite (walkFn_Dir _ _ _ _ _ _ _ _ _ (Rel_at path suf Hsuf)).
      destruct (isExcluded i (relOf suf)) eqn:Hex; [exact Hs|].
      apply eachName_clear; try assumption.
      * apply (wfNode_children a size None). exact Hwf.
      * apply allHeaders_snoc; [exact Hs|].
        intros h [Hin|[]]. injection Hin as <-. apply clear_of_anc; assumption.
  - apply walkFn_clear; assumption.
Qed.

Lemma Base_clear i path :
  isExcluded i (filepath_Base path) = false -> clearName i (filepath_Base path).
Proof.
  intros Hex d Hd Hne [Heq|(rest & Heq)].
  - apply isExcluded_false in Hex. apply Hex. rewrite Heq. exact Hd.
  - destruct (Base_noSlash path) as [Hroot|Hslash].
    + rewrite Hroot in Heq. destruct d as [|x d]; [contradiction|].
      rewrite append_cons in Heq. injection Heq as _ Heq. destruct d; discriminate.
    + rewrite Heq, slash_in_tail in Hslash. discriminate.
Qed.

Lemma createTarballFrom_clear i fs filePaths :
  (forall p, In p filePaths -> wfNode (lstat fs p) = true) ->
  forall s, allHeaders (fun h => clearName i (tar.Name h)) s ->
    allHeaders (fun h => clearName i (tar.Name h)) (snd (createTarballFrom i fs filePaths s)).
Proof.
  induction filePaths as [|path rest IH]; intros Hwf s Hs; cbn [createTarballFrom];
    [exact Hs|].
  assert (IH' : forall s', allHeaders (fun h => clearName i (tar.Name h)) s' ->
                  allHeaders (fun h => clearName i (tar.Name h))
                    (snd (createTarballFrom i fs rest s')))
    by (apply IH; intros p Hp; apply Hwf; right; exact Hp).
  destruct (os_Stat fs path) as [info|e]; [|exact Hs].
  destruct (info_IsDir info).
  - assert (Hw : allHeaders (fun h => clearName i (tar.Name h))
                   (snd (filepath_Walk (walkFn i path) fs path s))).
    { unfold filepath_Walk, os_Lstat.
      pose proof (Hwf path (or_introl eq_refl)) as Hroot.
      pose proof (walk_clear i path (lstat fs path) Hroot "" s (or_introl eq_refl)
                    (ancClear_root i) Hs) as H.
      rewrite append_nil_r in H.
      destruct (lstat fs path) as [k a c o|a sz re cs|e].
      - destruct (walk _ _ _ s) as [[[| |]|] s']; exact H.
      - destruct (walk _ _ _ s) as [[[| |]|] s']; exact H.
      - rewrite walkFn_failed. exact Hs. }
    destruct (filepath_Walk _ fs path s) as [[[| |]|] s']; cbn [snd] in Hw |- *;
      try exact Hw. apply IH'. exact Hw.
  - pose proof (addFileToTar_clear i path (filepath_Base path) info s
                  (Base_clear i path) Hs) as Hf.
    destruct (addFileToTar _ _ _ _ s) as [[e|] s']; cbn [snd] in Hf |- *;
      [exact Hf|apply IH'; exact Hf].
Qed.

(** The position of a node found by walking down a well-formed tree. *)
Lemma Within_position path t p n :
  wfNode t = true -> Within path t p n ->
  exists suf, p = path +:+ suf /\ okSuf suf /\ relOf suf <> "" /\ wfNode n = true.
Proof.
  intros Hwf. induction 1 as [|p a size readErr children name child _ IH Hin].
  - exists "". rewrite append_nil_r. repeat split; [left; reflexivity|discriminate|exact Hwf].
  - destruct IH as (suf & -> & Hsuf & _ & Hdir).
    apply wfNode_children in Hdir. rewrite List.Forall_forall in Hdir.
    destruct (Hdir _ Hin) as [Hname Hchild]. cbn [fst snd] in Hname, Hchild.
    exists (suf +:+ "/" +:+ name). rewrite Join_at.
    repeat split; [apply okSuf_child; exact Hsuf| |exact Hchild].
    rewrite (relOf_child _ _ Hsuf). apply validName_spec in Hname as [Hne _].
    destruct (String.eqb suf ""); [exact Hne|].
    intros H. destruct (relOf suf); discriminate.
Qed.

(** C3. Exclusion prunes the subtree.  If a directory of an input tree has
    a relative path that is an exclusion pattern, then no header of the
    produced tar stream is named by that path or by a path below it -- also
    for files below it that match no pattern -- and the walk does not
    descend: at that directory, its names being readable, the callback
    answers [SkipDir] at once, whatever the directory holds, and writes
    nothing.  (Names in a directory are non-empty and have no separator.) *)
Theorem excluded_directory_pruned (i : TarImage) (fs : FS) (log : list string)
    (filePaths : list string) (path pD : string) (a : Attr) (size : Z)
    (readErr : error) (children : list (string * Node)) (relD : string) :
  In path filePaths ->
  (forall p, In p filePaths -> wfNode (lstat fs p) = true) ->
  Within path (lstat fs path) pD (Dir a size readErr children) ->
  filepath_Rel path pD = Ok relD ->
  isExcluded i relD = true ->
  (forall h, In (tar.RHeader h) (written (snd (createTarball i fs log filePaths))) ->
     ~ covers relD (tar.Name h)) /\
  (forall children' s,
     walk (walkFn i path) pD (Dir a size None children') s = (Some SkipDir, s)).
Proof.
  intros Hpath Hwf Hin Hrel Hex. split.
  - intros h Hh.
    destruct (Within_position path _ pD _ (Hwf path Hpath) Hin)
      as (suf & -> & Hsuf & Hne & _).
    rewrite (Rel_at _ _ Hsuf) in Hrel. injection Hrel as <-.
    refine (createTarballFrom_clear i fs filePaths Hwf _ _ h Hh (relOf suf) _ Hne).
    + intros h' [].
    + apply isExcluded_true. exact Hex.
  - intros children' s. cbn [walk].
    rewrite (walkFn_Dir _ _ _ _ _ _ _ _ _ Hrel), Hex. reflexivity.
Qed.

(** *** Errors of the walk *)

Lemma addFileToTar_result i fullPath rel info s :
  match fst (addFileToTar i fullPath rel info s) with
  | None | Some (Errorf _) => True
  | _ => False
  end.
Proof.
  unfold addFileToTar. destruct (isExcluded i rel); [exact I|].
  destruct (os_Open info); exact I.
Qed.

Lemma walkFn_proper i path p info err s :
  properErr info (fst (walkFn i path p info err s)).
Proof.
  unfold walkFn. destruct err; [exact I|].
  destruct (filepath_Rel path p) as [rel|e]; [|exact I].
  destruct (info_IsDir info) eqn:Hdir.
  - destruct (isExcluded i rel) eqn:Hex; [exact Hdir|].
    unfold addDirToTar. rewrite Hex. exact I.
  - destruct (negb _); [exact I|].
    pose proof (addFileToTar_result i p rel info s) as H.
    destruct (fst (addFileToTar i p rel info s)) as [[| |]|]; tauto.
Qed.

(** The loop over the names only ever stops on an ordinary error. *)
Lemma eachName_proper i path spine children :
  Forall (fun c => forall p s, properErr (snd c) (fst (walk (walkFn i path) p (snd c) s)))
         children ->
  forall s,
    match fst (eachName (walkFn i path) (walk (walkFn i path)) spine children s) with
    | None | Some (Errorf _) => True
    | _ => False
    end.
Proof.
  induction 1 as [|[name child] rest Hc _ IH]; intros s; cbn [eachName]; [exact I|].
  cbn [snd] in Hc. specialize (Hc (filepath_Join spine name) s).
  destruct child as [k a content openErr|a size readErr cs|e].
  - destruct (walk _ _ _ s) as [[[| |]|] s']; cbn [fst properErr] in Hc.
    + rewrite info_IsDir_File in Hc. discriminate.
    + exact I.
    + contradiction.
    + apply IH.
  - destruct (walk _ _ _ s) as [[[| |]|] s']; cbn [fst properErr] in Hc.
    + rewrite info_IsDir_Dir. apply IH.
    + exact I.
    + contradiction.
    + apply IH.
  - rewrite walkFn_failed. exact I.
Qed.

Lemma walk_proper i path info :
  forall p s, properErr info (fst (walk (walkFn i path) p info s)).
Proof.
  induction info as [k a content openErr|a size readErr children IH|e] using Node_ind;
    intros p s; cbn [walk].
  - apply walkFn_proper.
  - pose proof (walkFn_proper i path p (Dir a size readErr children) readErr s) as H1.
    destruct (walkFn i path p (Dir a size readErr children) readErr s) as [err1 s1].
    cbn [fst] in H1.
    destruct readErr, err1; try exact H1.
    pose proof (eachName_proper i path p children IH s1) as H2.
    destruct (fst (eachName _ _ p children s1)) as [[| |]|]; cbn; tauto.
  - apply walkFn_proper.
Qed.

Lemma filepath_Walk_result i fs path s :
  match fst (filepath_Walk (walkFn i path) fs path s) with
  | None | Some (Errorf _) => True
  | _ => False
  end.
Proof.
  unfold filepath_Walk. destruct (os_Lstat fs path) as [root|e].
  - pose proof (walk_proper i path root path s) as H.
    destruct (walk _ _ _ s) as [[[| |]|] s']; cbn in H |- *; tauto.
  - rewrite walkFn_failed. exact I.
Qed.

(** *** Meeting an entry that is neither a file nor a directory *)


Lemma isRegular_false k : k <> Regular -> isRegular k = false.
Proof. destruct k; [contradiction|reflexivity..]. Qed.


Lemma createTarballFrom_result i fs filePaths :
  forall s,
    match fst (createTarballFrom i fs filePaths s) with
    | None | Some (Errorf _) => True
    | _ => False
    end.
Proof.
  induction filePaths as [|path rest IH]; intros s; cbn [createTarballFrom]; [exact I|].
  destruct (os_Stat fs path) as [info|e]; [|exact I].
  destruct (info_IsDir info).
  - pose proof (filepath_Walk_result i fs path s) as H.
    destruct (filepath_Walk _ fs path s) as [[[| |]|] s']; cbn [fst] in H |- *;
      try tauto. apply IH.
  - pose proof (addFileToTar_result i path (filepath_Base path) info s) as H.
    destruct (addFileToTar _ _ _ _ s) as [[[| |]|] s']; cbn [fst] in H |- *;
      try tauto. apply IH.
Qed.


(** *** Without I/O faults the only error names an offending entry *)







End TarFacts.

(* ===================================================================== *)
(** ** The statements about [tar_image.go] on the sample file system *)

Section TarSamples.
Import Image TarSpec TreeSample.

(** [skip] is excluded: nothing named [skip] or [skip/...] is archived,
    although [skip/x.txt] matches no pattern. *)
Lemma excluded_directory_pruned_witness :
  (forall h,
      In (tar.RHeader h)
         (written (snd (createTarball (image ["/src/app"] ["skip"]) (fsAt 420 5) []
                          ["/src/app"]))) ->
      ~ covers "skip" (tar.Name h)) /\
  (forall children' s,
      walk (walkFn (image ["/src/app"] ["skip"]) "/src/app") "/src/app/skip"
        (Dir (attr 420 5) 4096 None children') s = (Some SkipDir, s)).
Proof.
  apply (excluded_directory_pruned (image ["/src/app"] ["skip"]) (fsAt 420 5) []
           ["/src/app"] "/src/app" "/src/app/skip" (attr 420 5) 4096 None
           [("link", File Symlink (attr 511 5) "" None); ("x.txt", reg 420 5 "x")] "skip").
  - left. reflexivity.
  - intros p [<-|[]]. reflexivity.
  - change "/src/app/skip" with (filepath_Join "/src/app" "skip").
    eapply Within_child; [apply Within_top|]. right. left. reflexivity.
  - reflexivity.
  - reflexivity.
Defined.





(** [/src/notes.txt] with the pattern [notes.txt]. *)
Lemma bare_file_by_base_name_witness :
  createTarballFrom (image ["/src/notes.txt"] ["notes.txt"]) (fsAt 420 5)
    ["/src/notes.txt"] {| written := []; infoLog := [] |}
  = (None, {| written := []; infoLog := [] |}) /\
  createTarballFrom (image ["/src/notes.txt"] []) (fsAt 420 5)
    ["/src/notes.txt"] {| written := []; infoLog := [] |}
  = (None, {| written := [tar.RHeader (fileHeader "notes.txt" "notes"); tar.RData "notes"];
              infoLog := ["file: notes.txt" +:+ nl] |}).
Proof.
  split.
  - apply (bare_file_by_base_name (image ["/src/notes.txt"] ["notes.txt"]) (fsAt 420 5)
             "/src/notes.txt" (attr 420 5) "notes" None [] {| written := []; infoLog := [] |}
             eq_refl).
    reflexivity.
  - apply (bare_file_by_base_name (image ["/src/notes.txt"] []) (fsAt 420 5)
             "/src/notes.txt" (attr 420 5) "notes" None [] {| written := []; infoLog := [] |}
             eq_refl); reflexivity.
Defined.

End TarSamples.

(* ===================================================================== *)
(** ** Further vocabulary for [pull.go]: the shape of the effect trace *)

Module PullTrace.
Import Cmd PullSpec.

(** The mutating events of a trace, in order. *)
Definition muts (new : list Event) : list Event := List.filter mutates new.

(** Events of the rewrite step: a registry lookup or a write. *)
Definition rewrites (ev : Event) : bool :=
  match ev with
  | EvGeneric _ | EvWriteFile _ _ _ => true
  | _ => false
  end.

(** A computation all of whose new events satisfy [P]. *)
Definition emitsOnly {A} (P : Event -> Prop) (m : M A) : Prop :=
  forall w, exists r fs' new,
    m w = (r, {| files := fs'; events := events w ++ new |}) /\ Forall P new.

(** A computation whose result and mutating events are related by [S]. *)
Definition shape {A} (S : Result A -> list Event -> Prop) (m : M A) : Prop :=
  forall w, exists r fs' new,
    m w = (r, {| files := fs'; events := events w ++ new |}) /\ S r (muts new).

(** The three steps on the destination, in the order of [Run]. *)
Definition dirSteps (o : PullOptions) : list Event :=
  [EvRemoveAll (OutputPath o); EvMkdirAll (OutputPath o) 448; EvAsDirectory (OutputPath o)].

Definition lockDocPath (E : Env) (o : PullOptions) : string :=
  filepath_Join E [OutputPath o; BundleDir E; ImageLockFile E].

(** The mutations of a pull: a prefix of the three destination steps, all
    three when the pull succeeds; or, for a bundle, the three steps and the
    one call that writes the lock document, whatever that call returns. *)
Definition orderly (E : Env) (o : PullOptions) (r : Result unit) (l : list Event) : Prop :=
  (l `prefix_of` dirSteps o /\ (r = Ok tt -> l = dirSteps o)) \/
  (Bundle o <> "" /\
   exists bytes, l = dirSteps o ++ [EvWriteFile (lockDocPath E o) bytes 600]).

(** The mutations of the rewrite step: none, or the one call of
    [ioutil.WriteFile] on [path]. *)
Definition oneWrite (path : string) (l : list Event) : Prop :=
  l = [] \/ exists bytes, l = [EvWriteFile path bytes 600].

(** After [m] every file other than the one at [path] is as it was before,
    and if [m] called nothing that mutates, all files are as before. *)
Definition confined (path : string) (m : M unit) : Prop :=
  forall w, exists r fs' new,
    m w = (r, {| files := fs'; events := events w ++ new |}) /\
    (forall p, p <> path -> fs' !! p = files w !! p) /\
    (muts new = [] -> fs' = files w).

End PullTrace.

(* ===================================================================== *)
(** ** More facts about [pull.go] *)

Section PullMore.
Import Cmd PullSpec PullTrace.
Context (E : Env).

(** *** getRefFromFlags *)

(** X1. With the lock path empty and exactly one of the image and bundle
    flags given, [getRefFromFlags] returns that flag's value as it is and
    touches nothing: no file is read. *)
Theorem getRef_single_flag (o : PullOptions) (w : World) :
  LockPath o = "" ->
  numSources o = 1%nat ->
  getRefFromFlags E o w
  = (Ok (if isSet (Image o) then Image o else Bundle o), w).
Proof.
  destruct o as [i b out l]. unfold numSources, isSet, getRefFromFlags, bind, liftR.
  cbn [LockPath Image Bundle pickRef]. intros -> Hn.
  destruct i, b; cbn in Hn |- *; try discriminate; reflexivity.
Qed.

(** X2. With only the lock path given, [getRefFromFlags] reads exactly
    that file and returns the digest reference of the decoded bundle lock
    verbatim; a missing file and a decoding failure are returned as they
    are, unwrapped. *)
Theorem getRef_lock_path (o : PullOptions) (w : World) :
  LockPath o <> "" -> Image o = "" -> Bundle o = "" ->
  getRefFromFlags E o w
  = (match files w !! LockPath o with
     | None => Err ("open " +:+ LockPath o +:+ ": no such file or directory")
     | Some lockBytes =>
         match Unmarshal_BundleLock E lockBytes with
         | Ok bundleLock => Ok (DigestRef (BL_Image bundleLock))
         | Err e => Err e
         end
     end,
     {| files := files w; events := events w ++ [EvReadFile (LockPath o)] |}).
Proof.
  destruct o as [i b out l]. cbn [LockPath Image Bundle]. intros Hl -> ->.
  unfold getRefFromFlags. cbn [LockPath Image Bundle pickRef].
  destruct l as [|c l]; [contradiction|].
  cbn [String.eqb negb]. unfold bind at 1. rewrite liftR_run.
  cbn [String.eqb]. unfold bind at 1. rewrite ReadFile_run.
  destruct (files w !! String c l) as [lockBytes|]; [|reflexivity].
  unfold bind, liftR, ret. destruct (Unmarshal_BundleLock E lockBytes); reflexivity.
Qed.

(** *** Closure lemmas *)

Lemma muts_app a b : muts (a ++ b) = muts a ++ muts b.
Proof. apply List.filter_app. Qed.

Lemma muts_quiet new : Forall (fun ev => mutates ev = false) new -> muts new = [].
Proof.
  induction 1 as [|ev new Hev _ IH]; [reflexivity|].
  unfold muts in *. cbn [List.filter]. rewrite Hev. exact IH.
Qed.

Lemma readonly_wrapM {A} prefix (m : M A) : readonly m -> readonly (wrapM prefix m).
Proof.
  intros Hm w. destruct (Hm w) as (r & new & Hrun & Hnew).
  exists (wrapErr prefix r), new. split; [|exact Hnew].
  unfold wrapM. rewrite Hrun. reflexivity.
Qed.

Lemma readonly_ReadImageLockFile path : readonly (ReadImageLockFile E path).
Proof.
  unfold ReadImageLockFile. apply readonly_bind; [apply readonly_ReadFile|intros bs].
  apply readonly_pure.
Qed.

Lemma shape_pure {A} (S : Result A -> list Event -> Prop) r :
  S r [] -> shape S (liftR r).
Proof.
  intros HS w. exists r, (files w), []. split; [|exact HS].
  rewrite liftR_run. f_equal. apply world_nil.
Qed.

Lemma shape_weaken {A} (S S' : Result A -> list Event -> Prop) m :
  (forall r l, S r l -> S' r l) -> shape S m -> shape S' m.
Proof.
  intros Himp Hm w. destruct (Hm w) as (r & fs' & new & Hrun & HS).
  exists r, fs', new. split; [exact Hrun|apply Himp; exact HS].
Qed.

Lemma shape_readonly_bind {A B} (S : Result B -> list Event -> Prop)
    (m : M A) (k : A -> M B) :
  readonly m -> (forall e, S (Err e) []) -> (forall a, shape S (k a)) ->
  shape S (bind m k).
Proof.
  intros Hm Herr Hk w. destruct (Hm w) as (r & new & Hrun & Hnew).
  destruct r as [a|e].
  - destruct (Hk a {| files := files w; events := events w ++ new |})
      as (r2 & fs2 & new2 & Hrun2 & HS).
    exists r2, fs2, (new ++ new2). split.
    + erewrite bind_ok by exact Hrun. rewrite Hrun2. cbn [events].
      rewrite <- app_assoc. reflexivity.
    + rewrite muts_app, (muts_quiet _ Hnew). exact HS.
  - exists (Err e), (files w), new. split.
    + erewrite bind_err by exact Hrun. reflexivity.
    + rewrite (muts_quiet _ Hnew). apply Herr.
Qed.

Lemma shape_fsCall_bind {B} (S : Result B -> list Event -> Prop) ev op (k : error -> M B) :
  mutates ev = true ->
  (forall a, shape (fun r l => S r (ev :: l)) (k a)) ->
  shape S (bind (fsCall ev op) k).
Proof.
  intros Hev Hk w. destruct (op (files w)) as [fs1 e] eqn:Hop.
  destruct (Hk e {| files := fs1; events := events w ++ [ev] |})
    as (r2 & fs2 & new2 & Hrun2 & HS).
  exists r2, fs2, (ev :: new2). split.
  - erewrite bind_ok.
    2:{ unfold fsCall, bind, emit. cbn [files events]. rewrite Hop. reflexivity. }
    rewrite Hrun2. cbn [events]. rewrite <- app_assoc. reflexivity.
  - unfold muts in *. cbn [List.filter]. rewrite Hev. exact HS.
Qed.

Lemma shape_wrapM {A} (S : Result A -> list Event -> Prop) prefix m :
  (forall r l, S r l -> S (wrapErr prefix r) l) -> shape S m -> shape S (wrapM prefix m).
Proof.
  intros Hwrap Hm w. destruct (Hm w) as (r & fs' & new & Hrun & HS).
  exists (wrapErr prefix r), fs', new. split; [|apply Hwrap; exact HS].
  unfold wrapM. rewrite Hrun. reflexivity.
Qed.

Lemma shape_rewriteImageLock o ref :
  shape (fun _ => oneWrite (lockDocPath E o)) (rewriteImageLock E o ref).
Proof.
  assert (Hnone : forall e : string, oneWrite (lockDocPath E o) []) by (left; reflexivity).
  unfold rewriteImageLock. fold (lockDocPath E o).
  apply shape_readonly_bind;
    [apply readonly_wrapM, readonly_ReadImageLockFile|exact Hnone|intros lockFile].
  destruct (_ =? _)%nat; [apply (shape_pure _ (Ok tt)); left; reflexivity|].
  apply shape_readonly_bind; [apply readonly_emit; reflexivity|exact Hnone|intros _].
  apply shape_readonly_bind; [apply readonly_relocateLoop|exact Hnone|intros [news|]].
  - apply shape_readonly_bind; [apply readonly_pure|exact Hnone|intros bs].
    apply shape_readonly_bind; [apply readonly_emit; reflexivity|exact Hnone|intros _].
    intros w.
    destruct (ioutil_WriteFile (lockDocPath E o) bs 600 w) as [r w'] eqn:Hrun.
    exists r, (files w'), [EvWriteFile (lockDocPath E o) bs 600].
    split; [|right; exists bs; reflexivity].
    rewrite WriteFile_run in Hrun. injection Hrun as <- <-. reflexivity.
  - apply (shape_pure _ (Ok tt)). left. reflexivity.
Qed.

Lemma prefix_dirSteps_nil o : [] `prefix_of` dirSteps o.
Proof. exists (dirSteps o). reflexivity. Qed.

(** X3. The mutations of a pull come in one order.  Whatever the inputs,
    the mutating calls of [Run] are a prefix of: remove the output
    directory, create it with mode 0700, extract into it -- and after these
    three, for a bundle only, the single call that writes the lock
    document; nothing is said about what that call returns.  A pull that
    returns success has made all three directory calls. *)
Theorem Run_mutations_in_order (o : PullOptions) (w : World) :
  exists r fs' new,
    Run E o w = (r, {| files := fs'; events := events w ++ new |}) /\
    orderly E o r (muts new).
Proof.
  revert w. change (shape (orderly E o) (Run E o)).
  assert (Hfail : forall l, l `prefix_of` dirSteps o ->
                  forall e, orderly E o (Err e) l).
  { intros l Hl e. left. split; [exact Hl|discriminate]. }
  assert (H0 : forall e, orderly E o (Err e) [])
    by (intros e; apply Hfail; apply prefix_dirSteps_nil).
  unfold Run.
  apply shape_readonly_bind; [apply readonly_getRefFromFlags|exact H0|intros inputRef].
  apply shape_readonly_bind; [apply readonly_pure|exact H0|intros ref].
  apply shape_readonly_bind; [apply readonly_emit; reflexivity|exact H0|intros _].
  apply shape_readonly_bind; [apply readonly_pure|exact H0|intros imgs].
  destruct imgs as [|img others]; [apply (shape_pure _ (Err _)); apply H0|].
  apply shape_readonly_bind; [|exact H0|intros _].
  { destruct (1 <? _)%nat; [apply readonly_emit; reflexivity|apply readonly_ret]. }
  apply shape_readonly_bind; [apply readonly_pure|exact H0|intros manifest].
  apply shape_readonly_bind; [apply readonly_check|exact H0|intros _].
  apply shape_readonly_bind; [apply readonly_pure|exact H0|intros digest].
  apply shape_readonly_bind; [apply readonly_emit; reflexivity|exact H0|intros _].
  destruct (_ || _); [apply (shape_pure _ (Err _)); apply H0|].
  apply shape_fsCall_bind; [reflexivity|intros err].
  apply shape_readonly_bind; [apply readonly_check| |intros _].
  { intros e. apply Hfail.
    exists [EvMkdirAll (OutputPath o) 448; EvAsDirectory (OutputPath o)]. reflexivity. }
  apply shape_fsCall_bind; [reflexivity|intros err1].
  apply shape_readonly_bind; [apply readonly_check| |intros _].
  { intros e. apply Hfail. exists [EvAsDirectory (OutputPath o)]. reflexivity. }
  apply shape_fsCall_bind; [reflexivity|intros err2].
  apply shape_readonly_bind; [apply readonly_check| |intros _].
  { intros e. apply Hfail. exists []. reflexivity. }
  destruct (String.eqb_spec (Bundle o) "") as [Hb|Hb]; cbn [negb].
  - apply (shape_pure _ (Ok tt)). left. split; [exists []; reflexivity|reflexivity].
  - eapply shape_weaken; [|apply shape_wrapM; [|apply shape_rewriteImageLock]].
    + intros r l [->|(bytes & ->)].
      * left. split; [exists []; reflexivity|reflexivity].
      * right. split; [exact Hb|]. exists bytes. reflexivity.
    + intros r l H. exact H.
Qed.

(** *** Only a bundle pull runs the rewrite *)

Lemma emitsOnly_pure {A} (P : Event -> Prop) (r : Result A) : emitsOnly P (liftR r).
Proof.
  intros w. exists r, (files w), []. split; [|constructor].
  rewrite liftR_run. f_equal. apply world_nil.
Qed.

Lemma emitsOnly_emit (P : Event -> Prop) ev : P ev -> emitsOnly P (emit ev).
Proof.
  intros Hev w. exists (Ok tt), (files w), [ev]. split; [reflexivity|].
  constructor; [exact Hev|constructor].
Qed.

Lemma emitsOnly_bind {A B} (P : Event -> Prop) (m : M A) (k : A -> M B) :
  emitsOnly P m -> (forall a, emitsOnly P (k a)) -> emitsOnly P (bind m k).
Proof.
  intros Hm Hk w. destruct (Hm w) as (r & fs1 & new & Hrun & Hnew).
  destruct r as [a|e].
  - destruct (Hk a {| files := fs1; events := events w ++ new |})
      as (r2 & fs2 & new2 & Hrun2 & Hnew2).
    exists r2, fs2, (new ++ new2). split.
    + erewrite bind_ok by exact Hrun. rewrite Hrun2. cbn [events].
      rewrite <- app_assoc. reflexivity.
    + apply Forall_app; split; assumption.
  - exists (Err e), fs1, new. split; [|exact Hnew].
    erewrite bind_err by exact Hrun. reflexivity.
Qed.

Lemma emitsOnly_fsCall (P : Event -> Prop) ev op : P ev -> emitsOnly P (fsCall ev op).
Proof.
  intros Hev w. destruct (op (files w)) as [fs1 e] eqn:Hop.
  exists (Ok e), fs1, [ev]. split.
  - unfold fsCall, bind, emit. cbn [files events]. rewrite Hop. reflexivity.
  - constructor; [exact Hev|constructor].
Qed.

(** X4. The rewrite belongs to the bundle flag.  A pull with the bundle
    flag empty -- an image pull, and also a pull through a lock path --
    makes no [registry.Generic] lookup and writes no file, whatever the
    manifest says. *)
Theorem no_rewrite_without_bundle_flag (o : PullOptions) (w : World) :
  Bundle o = "" ->
  exists r fs' new,
    Run E o w = (r, {| files := fs'; events := events w ++ new |}) /\
    Forall (fun ev => rewrites ev = false) new.
Proof.
  intros Hb. revert w. change (emitsOnly (fun ev => rewrites ev = false) (Run E o)).
  assert (Hcheck : forall prefix e,
             emitsOnly (fun ev => rewrites ev = false) (check prefix e))
    by (intros prefix [e|]; [apply (emitsOnly_pure _ (Err _))|apply (emitsOnly_pure _ (Ok tt))]).
  unfold Run.
  apply emitsOnly_bind.
  { unfold getRefFromFlags. apply emitsOnly_bind; [apply emitsOnly_pure|intros ref].
    destruct (String.eqb ref ""); [apply (emitsOnly_pure _ (Err _))|].
    destruct (String.eqb (LockPath o) ""); [apply (emitsOnly_pure _ (Ok _))|].
    apply emitsOnly_bind.
    { unfold ioutil_ReadFile.
      apply emitsOnly_bind; [apply emitsOnly_emit; reflexivity|intros _].
      intros w0.
      exists (match files w0 !! ref with
              | Some data => Ok data
              | None => Err ("open " +:+ ref +:+ ": no such file or directory")
              end), (files w0), [].
      split; [|constructor]. cbv beta.
      destruct (files w0 !! ref); f_equal; apply world_nil. }
    intros lockBytes. apply emitsOnly_bind; [apply emitsOnly_pure|intros bundleLock].
    apply (emitsOnly_pure _ (Ok _)). }
  intros inputRef.
  apply emitsOnly_bind; [apply emitsOnly_pure|intros ref].
  apply emitsOnly_bind; [apply emitsOnly_emit; reflexivity|intros _].
  apply emitsOnly_bind; [apply emitsOnly_pure|intros imgs].
  destruct imgs as [|img others]; [apply (emitsOnly_pure _ (Err _))|].
  apply emitsOnly_bind.
  { destruct (1 <? _)%nat; [apply emitsOnly_emit; reflexivity|apply (emitsOnly_pure _ (Ok tt))]. }
  intros _.
  apply emitsOnly_bind; [apply emitsOnly_pure|intros manifest].
  apply emitsOnly_bind; [apply Hcheck|intros _].
  apply emitsOnly_bind; [apply emitsOnly_pure|intros digest].
  apply emitsOnly_bind; [apply emitsOnly_emit; reflexivity|intros _].
  destruct (_ || _); [apply (emitsOnly_pure _ (Err _))|].
  apply emitsOnly_bind; [apply emitsOnly_fsCall; reflexivity|intros err].
  apply emitsOnly_bind; [apply Hcheck|intros _].
  apply emitsOnly_bind; [apply emitsOnly_fsCall; reflexivity|intros err1].
  apply emitsOnly_bind; [apply Hcheck|intros _].
  apply emitsOnly_bind; [apply emitsOnly_fsCall; reflexivity|intros err2].
  apply emitsOnly_bind; [apply Hcheck|intros _].
  rewrite Hb. cbn [String.eqb negb]. apply (emitsOnly_pure _ (Ok tt)).
Qed.

(** *** The rewrite and the files on disk *)

Lemma confined_readonly_bind {A} path (m : M A) (k : A -> M unit) :
  readonly m -> (forall a, confined path (k a)) -> confined path (bind m k).
Proof.
  intros Hm Hk w. destruct (Hm w) as (r & new & Hrun & Hnew).
  destruct r as [a|e].
  - destruct (Hk a {| files := files w; events := events w ++ new |})
      as (r2 & fs2 & new2 & Hrun2 & Hother & Hquiet).
    cbn [files events] in *.
    exists r2, fs2, (new ++ new2). split; [|split].
    + erewrite bind_ok by exact Hrun. rewrite Hrun2, <- app_assoc. reflexivity.
    + exact Hother.
    + rewrite muts_app, (muts_quiet _ Hnew). exact Hquiet.
  - exists (Err e), (files w), new. split; [|split; [reflexivity|reflexivity]].
    erewrite bind_err by exact Hrun. reflexivity.
Qed.

Lemma confined_readonly path (m : M unit) : readonly m -> confined path m.
Proof.
  intros Hm w. destruct (Hm w) as (r & new & Hrun & _).
  exists r, (files w), new. split; [exact Hrun|]. split; reflexivity.
Qed.

(** X5. The rewrite step touches the lock document only.  After
    [rewriteImageLock], whatever it returns, every file other than the lock
    document holds what it held before; and on every path through the
    function that does not reach the call of [ioutil.WriteFile] -- an
    unreadable or undecodable document, no entries, a malformed or missing
    candidate, an encoding failure -- all files, the lock document included,
    are as before. *)
Theorem rewrite_confined_to_lock_document (o : PullOptions) (ref : Reference) (w : World) :
  exists r fs' new,
    rewriteImageLock E o ref w = (r, {| files := fs'; events := events w ++ new |}) /\
    (forall p, p <> lockDocPath E o -> fs' !! p = files w !! p) /\
    (muts new = [] -> fs' = files w).
Proof.
  revert w. change (confined (lockDocPath E o) (rewriteImageLock E o ref)).
  unfold rewriteImageLock. fold (lockDocPath E o).
  apply confined_readonly_bind;
    [apply readonly_wrapM, readonly_ReadImageLockFile|intros lockFile].
  destruct (_ =? _)%nat; [apply confined_readonly, readonly_ret|].
  apply confined_readonly_bind; [apply readonly_emit; reflexivity|intros _].
  apply confined_readonly_bind; [apply readonly_relocateLoop|intros [news|]].
  - apply confined_readonly_bind; [apply readonly_pure|intros bs].
    apply confined_readonly_bind; [apply readonly_emit; reflexivity|intros _].
    intros w.
    destruct (ioutil_WriteFile (lockDocPath E o) bs 600 w) as [r w'] eqn:Hrun.
    exists r, (files w'), [EvWriteFile (lockDocPath E o) bs 600].
    rewrite WriteFile_run in Hrun. injection Hrun as <- <-. cbn [files].
    split; [reflexivity|]. split.
    + intros p Hp. apply lookup_insert_ne. congruence.
    + discriminate.
  - apply confined_readonly, readonly_ret.
Qed.

(** The loop returns the error of the first malformed candidate. *)
Lemma relocateLoop_malformed repo pre img post e :
  Forall (found E repo) pre -> candidate E repo img = Err e ->
  forall acc w,
    relocateLoop E repo (pre ++ img :: post) acc w
    = (Err e, logged w (queries E repo pre)).
Proof.
  intros Hpre Hbad. induction Hpre as [|a pre (da & Hda & Hfound) _ IH]; intros acc w.
  - cbn [app queries]. rewrite relocateLoop_cons. unfold candidate in Hbad.
    unfold logged. rewrite app_nil_r.
    destruct (ImageWithRepository E _ repo) as [newURL|e'].
    + rewrite Hbad. destruct w; reflexivity.
    + injection Hbad as ->. destruct w; reflexivity.
  - cbn [app]. rewrite relocateLoop_cons.
    destruct (candidate_ok _ _ _ _ Hda) as (newURL & -> & ->).
    rewrite Hfound, IH, logged_logged, (queries_cons _ _ _ _ _ Hda). reflexivity.
Qed.

(** X6. A malformed candidate stops the rewrite with its error.  When the
    entries before the k-th are found and the k-th entry's candidate cannot
    be built or does not parse as a digest reference, [rewriteImageLock]
    returns that error as it is; the files are unchanged, the registry was
    asked about the entries before the k-th only, and no skip notice is
    printed. *)
Theorem rewrite_stops_at_malformed_candidate (o : PullOptions) (ref : Reference)
    (w : World) (bytes : string) (lockFile : ImageLock)
    (pre : list ImageDesc) (img : ImageDesc) (post : list ImageDesc) (e : string) :
  files w !! lockDocPath E o = Some bytes ->
  Unmarshal_ImageLock E bytes = Ok lockFile ->
  IL_Images lockFile = pre ++ img :: post ->
  Forall (found E (Context_Name ref)) pre ->
  candidate E (Context_Name ref) img = Err e ->
  rewriteImageLock E o ref w
  = (Err e,
     {| files := files w;
        events := events w ++ [EvReadFile (lockDocPath E o); UILine lineLocating]
                    ++ queries E (Context_Name ref) pre |}).
Proof.
  intros Hfile Hdec Himgs Hpre Hbad.
  rewrite (rewriteImageLock_loop E o ref w bytes lockFile Hfile Hdec)
    by (rewrite Himgs; destruct pre; discriminate).
  fold (lockDocPath E o).
  rewrite Himgs, (relocateLoop_malformed _ pre img post e Hpre Hbad).
  unfold logged. cbn [files events]. rewrite <- app_assoc. reflexivity.
Qed.

(** X7. A lock document that cannot be read or decoded fails the rewrite.
    If the file is absent, or its content does not decode, the call returns
    the error prefixed with "Reading image lock file: " having done the one
    read: no registry lookup, no notice, no write. *)
Theorem rewrite_needs_lock_document (o : PullOptions) (ref : Reference) (w : World) :
  (files w !! lockDocPath E o = None \/
   exists bytes e, files w !! lockDocPath E o = Some bytes /\
                   Unmarshal_ImageLock E bytes = Err e) ->
  exists msg,
    rewriteImageLock E o ref w
    = (Err ("Reading image lock file: " +:+ msg),
       {| files := files w; events := events w ++ [EvReadFile (lockDocPath E o)] |}).
Proof.
  intros Hbad. unfold rewriteImageLock. fold (lockDocPath E o).
  destruct Hbad as [Hnone|(bytes & e & Hsome & Hdec)].
  - eexists. erewrite bind_err; [reflexivity|].
    unfold wrapM. rewrite ReadImageLockFile_run, Hnone. reflexivity.
  - exists e. erewrite bind_err; [reflexivity|].
    unfold wrapM. rewrite ReadImageLockFile_run, Hsome, Hdec. reflexivity.
Qed.

End PullMore.

(* ===================================================================== *)
(** ** Further vocabulary for [tar_image.go]: the stream as a whole *)

Module TarStream.
Import Image TarSpec.

Definition dirLine (rel : string) : string := "dir: " +:+ rel +:+ nl.
Definition fileLine (rel : string) : string := "file: " +:+ rel +:+ nl.

(** The records and log lines that archiving adds: a directory header with
    its line, or a file header, the file's bytes and its line, each for a
    relative path that is not excluded. *)
Inductive Emitted (i : TarImage) : list tar.Record_ -> list string -> Prop :=
| Emitted_nil : Emitted i [] []
| Emitted_dir rel size rs ls :
    isExcluded i rel = false -> Emitted i rs ls ->
    Emitted i (tar.RHeader (dirHeader rel size) :: rs) (dirLine rel :: ls)
| Emitted_file rel content rs ls :
    isExcluded i rel = false -> Emitted i rs ls ->
    Emitted i (tar.RHeader (fileHeader rel content) :: tar.RData content :: rs)
            (fileLine rel :: ls).

Fixpoint headersOf (rs : list tar.Record_) : list tar.Header :=
  match rs with
  | [] => []
  | tar.RHeader h :: rest => h :: headersOf rest
  | tar.RData _ :: rest => headersOf rest
  end.

(** The log line of an entry. *)
Definition lineOf (h : tar.Header) : string :=
  (if Ascii.eqb (tar.Typeflag h) tar.TypeDir then "dir: " else "file: ")
  +:+ tar.Name h +:+ nl.

(** From [s] to [s'] the archiver has only added: records [rs] with their
    lines, and at most, when it stopped on an error, the line of a file it
    could not open. *)
Definition grows (i : TarImage) (r : option GoErr) (s s' : St) : Prop :=
  exists rs ls orphan,
    written s' = written s ++ rs /\
    infoLog s' = infoLog s ++ ls ++ orphan /\
    Emitted i rs ls /\
    match r with
    | Some (Errorf _) => True
    | _ => orphan = []
    end.

(** A child the walk passes over when its path is excluded: a regular file
    or a directory whose names can be read. *)
Definition prunable (child : Node) : Prop :=
  match child with
  | File Regular _ _ _ => True
  | Dir _ _ None _ => True
  | _ => False
  end.





End TarStream.

(* ===================================================================== *)
(** ** More facts about [tar_image.go] *)

Section TarMore.
Import Image TarSpec TarStream.

Lemma Emitted_app i rs ls rs' ls' :
  Emitted i rs ls -> Emitted i rs' ls' -> Emitted i (rs ++ rs') (ls ++ ls').
Proof.
  induction 1; intros H'; cbn [app]; [exact H'| |]; constructor; auto.
Qed.

Lemma grows_refl i r s : grows i r s s.
Proof.
  exists [], [], []. rewrite !app_nil_r. repeat split; [constructor|].
  destruct r as [[| |]|]; auto.
Qed.

Lemma grows_result i r r' s s' :
  grows i r s s' ->
  match r with Some (Errorf _) => False | _ => True end ->
  grows i r' s s'.
Proof.
  intros (rs & ls & orphan & Hw & Hl & Hem & Horph) Hr.
  exists rs, ls, orphan. repeat split; try assumption.
  assert (orphan = []) as -> by (destruct r as [[| |]|]; tauto).
  destruct r' as [[| |]|]; auto.
Qed.

Lemma grows_trans i r1 r2 s s1 s2 :
  grows i r1 s s1 ->
  match r1 with Some (Errorf _) => False | _ => True end ->
  grows i r2 s1 s2 ->
  grows i r2 s s2.
Proof.
  intros (rs1 & ls1 & o1 & Hw1 & Hl1 & Hem1 & Ho1) Hr1
         (rs2 & ls2 & o2 & Hw2 & Hl2 & Hem2 & Ho2).
  assert (o1 = []) as -> by (destruct r1 as [[| |]|]; tauto).
  exists (rs1 ++ rs2), (ls1 ++ ls2), o2. repeat split.
  - rewrite Hw2, Hw1, app_assoc. reflexivity.
  - rewrite Hl2, Hl1, app_nil_r, <- !app_assoc. reflexivity.
  - apply Emitted_app; assumption.
  - exact Ho2.
Qed.

Lemma addFileToTar_grows i fullPath rel info s :
  grows i (fst (addFileToTar i fullPath rel info s)) s
          (snd (addFileToTar i fullPath rel info s)).
Proof.
  unfold addFileToTar. destruct (isExcluded i rel) eqn:Hex; [apply grows_refl|].
  destruct info as [k a content [e|]|a size readErr cs|e]; cbn [os_Open fst snd].
  - exists [], [], [fileLine rel]. repeat split; [rewrite app_nil_r; reflexivity|constructor].
  - exists [tar.RHeader (fileHeader rel content); tar.RData content], [fileLine rel], [].
    unfold WriteHeader, io_Copy, logLine. cbn.
    rewrite <- app_assoc. repeat split. constructor; [exact Hex|constructor].
  - exists [], [], [fileLine rel]. repeat split; [rewrite app_nil_r; reflexivity|constructor].
  - exists [], [], [fileLine rel]. repeat split; [rewrite app_nil_r; reflexivity|constructor].
Qed.

Lemma walkFn_grows i path p info err s :
  grows i (fst (walkFn i path p info err s)) s (snd (walkFn i path p info err s)).
Proof.
  unfold walkFn. destruct err; [apply grows_refl|].
  destruct (filepath_Rel path p) as [rel|e]; [|apply grows_refl].
  destruct (info_IsDir info).
  - destruct (isExcluded i rel) eqn:Hex; [apply grows_refl|].
    unfold addDirToTar. rewrite Hex.
    exists [tar.RHeader (dirHeader rel (info_Size info))], [dirLine rel], [].
    repeat split. constructor; [exact Hex|constructor].
  - destruct (negb _); [apply grows_refl|]. apply addFileToTar_grows.
Qed.

Lemma eachName_grows i path spine children :
  Forall (fun c => forall p s,
            grows i (fst (walk (walkFn i path) p (snd c) s)) s
                    (snd (walk (walkFn i path) p (snd c) s))) children ->
  forall s,
    grows i (fst (eachName (walkFn i path) (walk (walkFn i path)) spine children s)) s
            (snd (eachName (walkFn i path) (walk (walkFn i path)) spine children s)).
Proof.
  induction 1 as [|[name child] rest Hc _ IH]; intros s; cbn [eachName];
    [apply grows_refl|].
  cbn [snd] in Hc. specialize (Hc (filepath_Join spine name) s).
  destruct child as [k a content openErr|a size readErr cs|e].
  - destruct (walk _ _ _ s) as [[[| |]|] s1]; cbn [fst snd] in Hc.
    + rewrite info_IsDir_File. exact Hc.
    + exact Hc.
    + exact Hc.
    + eapply grows_trans; [exact Hc|exact I|apply IH].
  - destruct (walk _ _ _ s) as [[[| |]|] s1]; cbn [fst snd] in Hc.
    + rewrite info_IsDir_Dir. eapply grows_trans; [exact Hc|exact I|apply IH].
    + exact Hc.
    + exact Hc.
    + eapply grows_trans; [exact Hc|exact I|apply IH].
  - rewrite walkFn_failed. apply grows_refl.
Qed.

Lemma walk_grows i path info :
  forall p s, grows i (fst (walk (walkFn i path) p info s)) s
                      (snd (walk (walkFn i path) p info s)).
Proof.
  induction info as [k a content openErr|a size readErr children IH|e] using Node_ind;
    intros p s; cbn [walk].
  - apply walkFn_grows.
  - pose proof (walkFn_grows i path p (Dir a size readErr children) readErr s) as H1.
    destruct (walkFn i path p (Dir a size readErr children) readErr s) as [err1 s1].
    cbn [fst snd] in H1.
    destruct readErr, err1; try exact H1.
    eapply grows_trans; [exact H1|exact I|apply eachName_grows; exact IH].
  - apply walkFn_grows.
Qed.

Lemma filepath_Walk_grows i fs path s :
  grows i (fst (filepath_Walk (walkFn i path) fs path s)) s
          (snd (filepath_Walk (walkFn i path) fs path s)).
Proof.
  unfold filepath_Walk. destruct (os_Lstat fs path) as [root|e].
  - pose proof (walk_grows i path root path s) as H.
    destruct (walk _ _ _ s) as [[[| |]|] s1]; cbn [fst snd] in H |- *; exact H.
  - rewrite walkFn_failed. apply grows_refl.
Qed.

Lemma createTarballFrom_grows i fs filePaths :
  forall s, grows i (fst (createTarballFrom i fs filePaths s)) s
                    (snd (createTarballFrom i fs filePaths s)).
Proof.
  induction filePaths as [|path rest IH]; intros s; cbn [createTarballFrom];
    [apply grows_refl|].
  destruct (os_Stat fs path) as [info|e]; [|apply grows_refl].
  destruct (info_IsDir info).
  - pose proof (filepath_Walk_grows i fs path s) as H.
    destruct (filepath_Walk _ fs path s) as [[[| |]|] s1]; cbn [fst snd] in H |- *.
    + destruct H as (rs & ls & o & Hw & Hl & Hem & _). exists rs, ls, o. auto.
    + destruct H as (rs & ls & o & Hw & Hl & Hem & _). exists rs, ls, o. auto.
    + destruct H as (rs & ls & o & Hw & Hl & Hem & Ho). exists rs, ls, o. auto.
    + eapply grows_trans; [exact H|exact I|apply IH].
  - pose proof (addFileToTar_grows i path (filepath_Base path) info s) as H.
    destruct (addFileToTar _ _ _ _ s) as [[[| |]|] s1]; cbn [fst snd] in H |- *;
      try exact H.
    eapply grows_trans; [exact H|exact I|apply IH].
Qed.

Lemma Emitted_lines i rs ls : Emitted i rs ls -> ls = map lineOf (headersOf rs).
Proof.
  induction 1 as [|rel size rs ls _ _ IH|rel content rs ls _ _ IH]; [reflexivity| |];
    cbn [headersOf map]; rewrite <- IH; reflexivity.
Qed.

Lemma Emitted_names i rs ls :
  Emitted i rs ls -> Forall (fun h => isExcluded i (tar.Name h) = false) (headersOf rs).
Proof. induction 1; cbn [headersOf]; constructor; auto. Qed.

(** X8. Inputs are archived one after the other.  The loop of
    [createTarball] over a list of inputs followed by a second list is the
    loop over the first list and then, if that ended without error, the loop
    over the second from the state reached; an error of the first list is
    the result and nothing of the second list is looked at. *)
Theorem createTarballFrom_app (i : TarImage) (fs : FS) (first second : list string) (s : St) :
  createTarballFrom i fs (first ++ second) s
  = match createTarballFrom i fs first s with
    | (None, s') => createTarballFrom i fs second s'
    | (Some e, s') => (Some e, s')
    end.
Proof.
  revert s. induction first as [|path rest IH]; intros s; [reflexivity|].
  cbn [app createTarballFrom].
  destruct (os_Stat fs path) as [info|e]; [|reflexivity].
  destruct (info_IsDir info).
  - destruct (filepath_Walk _ fs path s) as [[[| |]|] s1]; try reflexivity. apply IH.
  - destruct (addFileToTar _ _ _ _ s) as [[e|] s1]; [reflexivity|apply IH].
Qed.

(** X10. No archived name is an exclusion pattern.  In the stream that
    [createTarball] produces, on success or up to an error, no header is
    named by a path of the exclusion list. *)
Theorem archive_names_not_excluded (i : TarImage) (fs : FS) (log : list string)
    (filePaths : list string) (h : tar.Header) :
  In (tar.RHeader h) (written (snd (createTarball i fs log filePaths))) ->
  ~ In (tar.Name h) (excludePaths i).
Proof.
  unfold createTarball.
  destruct (createTarballFrom_grows i fs filePaths {| written := []; infoLog := log |})
    as (rs & ls & o & Hw & _ & Hem & _).
  rewrite Hw. cbn [written app]. intros Hin.
  apply isExcluded_false.
  pose proof (Emitted_names i rs ls Hem) as Hnames.
  rewrite List.Forall_forall in Hnames. apply Hnames.
  clear - Hin. induction rs as [|[h'|bytes] rs IH]; [destruct Hin| |].
  - destruct Hin as [Heq|Hin]; [injection Heq as ->; left; reflexivity|right; auto].
  - destruct Hin as [Heq|Hin]; [discriminate|auto].
Qed.

(** X11. The log mirrors the archive.  When [createTarball] succeeds, the
    lines it has added to the info log are exactly the lines "dir: <name>"
    and "file: <name>" of the headers it has written, in the order of the
    stream; when it fails, these lines are still a prefix of what was
    logged. *)
Theorem log_mirrors_archive (i : TarImage) (fs : FS) (log : list string)
    (filePaths : list string) :
  let r := createTarball i fs log filePaths in
  (log ++ map lineOf (headersOf (written (snd r)))) `prefix_of` infoLog (snd r) /\
  (fst r = None ->
   infoLog (snd r) = log ++ map lineOf (headersOf (written (snd r)))).
Proof.
  cbv zeta. unfold createTarball.
  destruct (createTarballFrom_grows i fs filePaths {| written := []; infoLog := log |})
    as (rs & ls & o & Hw & Hl & Hem & Ho).
  rewrite Hw, Hl. cbn [written infoLog app].
  rewrite <- (Emitted_lines i rs ls Hem). split.
  - exists o. rewrite <- app_assoc. reflexivity.
  - intros Hnone. rewrite Hnone in Ho. rewrite Ho, app_nil_r. reflexivity.
Qed.

(** X12. What [asFileImage] leaves behind.  The call never panics: the
    "Unreachable" panic of [addDirToTar] cannot fire.  If it returns an
    error -- the temporary file could not be created, archiving failed, or
    [NewFileImage] failed -- the temporary directory holds exactly what it
    held before.  If it returns an image, the temporary file is new, it
    holds the complete stream of [createTarball], and [NewFileImage] was
    given its name and the bundle flag. *)
Theorem asFileImage_outcomes (S : Sys) (i : TarImage) (bundle : bool) (w : World) :
  let name := tempName S (temp w) in
  let r := createTarball i (disk S) (log w) (files i) in
  match asFileImage S i bundle w with
  | (Panicked _, _) => False
  | (Returned (Err _), w') => temp w' = temp w
  | (Returned (Ok img), w') =>
      temp w !! name = None /\
      fst r = None /\
      NewFileImage S name bundle (written (snd r)) = Ok img /\
      temp w' = <[name := written (snd r)]> (temp w) /\
      log w' = infoLog (snd r)
  end.
Proof.
  cbv zeta. unfold asFileImage, ioutil_TempFile.
  destruct (temp w !! tempName S (temp w)) as [old|] eqn:Hfree; [reflexivity|].
  cbn [temp log]. unfold createTarball.
  pose proof (createTarballFrom_result i (disk S) (files i)
                {| written := []; infoLog := log w |}) as Hres.
  destruct (createTarballFrom i (disk S) (files i) {| written := []; infoLog := log w |})
    as [[[| |]|] s1]; cbn [fst snd temp log] in Hres |- *.
  - contradiction.
  - rewrite !delete_insert_eq. apply delete_id. exact Hfree.
  - contradiction.
  - destruct (NewFileImage S _ bundle (written s1)) as [img|e] eqn:Hnew; cbn [temp log].
    + repeat (split; [reflexivity|]). split; [apply insert_insert_eq|reflexivity].
    + rewrite !delete_insert_eq. apply delete_id. exact Hfree.
Qed.

(** X13. An excluded child counts for nothing.  In the loop over the
    names of a directory being walked, a child whose relative path is an
    exclusion pattern and which is a regular file or a directory with
    readable names leaves no trace: the loop gives the same result, stream
    and log as the loop over the names without that child, and the children
    after it are visited as usual. *)
Theorem excluded_child_is_passed_over (i : TarImage) (path p : string)
    (before after : list (string * Node))
    (name : string) (child : Node) (rel : string) (s : St) :
  filepath_Rel path (filepath_Join p name) = Ok rel ->
  isExcluded i rel = true ->
  prunable child ->
  eachName (walkFn i path) (walk (walkFn i path)) p (before ++ (name, child) :: after) s
  = eachName (walkFn i path) (walk (walkFn i path)) p (before ++ after) s.
Proof.
  intros Hrel Hex Hchild.
  revert s. induction before as [|[name0 child0] rest IH]; intros s1.
  - cbn [app eachName].
    destruct child as [[] a' content openErr|a' size' [e|] cs|e]; try contradiction.
    + cbn [walk]. rewrite (walkFn_File _ _ _ _ _ _ _ _ _ Hrel). cbn [isRegular].
      rewrite addFileToTar_File, Hex. reflexivity.
    + cbn [walk]. rewrite (walkFn_Dir _ _ _ _ _ _ _ _ _ Hrel), Hex.
      rewrite info_IsDir_Dir. reflexivity.
  - cbn [app eachName].
    destruct child0 as [k0 a0 c0 o0|a0 sz0 re0 cs0|e0].
    + destruct (walk _ _ _ s1) as [[[| |]|] s2]; rewrite ?IH; reflexivity.
    + destruct (walk _ _ _ s1) as [[[| |]|] s2]; rewrite ?IH; reflexivity.
    + rewrite walkFn_failed. reflexivity.
Qed.

(** X14. The type check ignores the exclusion list.  An entry met by the
    walk that is neither a regular file nor a directory is an error even if
    its own relative path is an exclusion pattern; nothing is written and
    the message names the walked path. *)
Theorem special_entry_rejected_even_if_excluded (i : TarImage) (path p : string)
    (k : Kind) (a : Attr) (content : string) (openErr : error) (rel : string) (s : St) :
  k <> Regular ->
  filepath_Rel path p = Ok rel ->
  walk (walkFn i path) p (File k a content openErr) s
  = (Some (Errorf (msgNotRegular p)), s).
Proof.
  intros Hk Hrel. cbn [walk].
  rewrite (walkFn_File _ _ _ _ _ _ _ _ _ Hrel), (isRegular_false k Hk). reflexivity.
Qed.

(** *** The archive of a plain tree *)









Lemma Rel_self path : filepath_Rel path path = Ok ".".
Proof. unfold filepath_Rel. rewrite String.eqb_refl. reflexivity. Qed.

(** X17. The pattern "." drops a directory input.  The root of a walked
    input has the relative path ".", so when "." is an exclusion pattern a
    directory input with readable names is passed over whole -- nothing is
    written or logged for it and it is no error -- and the loop goes on with
    the next input. *)
Theorem dot_pattern_drops_directory_input (i : TarImage) (fs : FS) (path : string)
    (a : Attr) (size : Z) (children : list (string * Node)) (rest : list string) (s : St) :
  info_IsDir (stat fs path) = true ->
  lstat fs path = Dir a size None children ->
  isExcluded i "." = true ->
  createTarballFrom i fs (path :: rest) s = createTarballFrom i fs rest s.
Proof.
  intros Hdir Hroot Hex. cbn [createTarballFrom]. unfold os_Stat.
  destruct (stat fs path) as [k a' c o|a' sz re cs|e] eqn:Hnode; [| |discriminate].
  - rewrite info_IsDir_File in Hdir. discriminate.
  - rewrite Hdir. unfold filepath_Walk, os_Lstat. rewrite Hroot. cbn [walk].
    rewrite (walkFn_Dir _ _ _ _ _ _ _ _ _ (Rel_self path)), Hex. reflexivity.
Qed.

End TarMore.


(* ===================================================================== *)
(** ** More samples *)

Module MoreSamples.
Import Cmd Sample.

(** A lock document whose second entry has no digest. *)
Definition lockBad : ImageLock :=
  {| IL_ApiVersion := "imgpkg.carvel.dev/v1alpha1"; IL_Kind := "ImagesLock";
     IL_Images := [desc "index.docker.io/a/app@sha256:aa" "v1" "app";
                   desc "gcr.io/b/db" "v2" "db";
                   desc "gcr.io/b/cache@sha256:cc" "v3" "cache"] |}.

(** The sample environment with ["bad"] decoding to [lockBad]. *)
Definition envBad (present : list string) : Env :=
  let E := env present [bundleImg] in
  {| BundleAnnotation := BundleAnnotation E;
     BundleDir := BundleDir E;
     ImageLockFile := ImageLockFile E;
     filepath_Join := filepath_Join E;
     ParseReference := ParseReference E;
     registry_Images := registry_Images E;
     registry_Generic := registry_Generic E;
     ImageWithRepository := ImageWithRepository E;
     NewDigest := NewDigest E;
     Unmarshal_BundleLock := Unmarshal_BundleLock E;
     Unmarshal_ImageLock := fun bytes => if String.eqb bytes "bad" then Ok lockBad
                                         else Unmarshal_ImageLock E bytes;
     Marshal_ImageLock := Marshal_ImageLock E;
     os_RemoveAll := os_RemoveAll E;
     os_MkdirAll := os_MkdirAll E;
     AsDirectory := AsDirectory E |}.

Definition lockWorld : World :=
  {| files := {[ "/tmp/bundle.lock" := "index.docker.io/a/bundle@sha256:dd" ]};
     events := [] |}.

Definition bareWorld : World := {| files := ∅; events := [] |}.

(** A file system with a tree without special entries and a file. *)
Definition plainDir : Image.Node :=
  Image.Dir (TreeSample.attr 493 9) 4096 None
    [("bin", Image.Dir (TreeSample.attr 493 9) 4096 None
               [("run.sh", TreeSample.reg 493 9 "#!/bin/sh")]);
     ("readme", TreeSample.reg 420 9 "hello");
     ("tmp", Image.Dir (TreeSample.attr 493 9) 4096 None
               [("cache", TreeSample.reg 420 9 "c")])].

Definition fsMore : Image.FS :=
  let look := fun path : string =>
    if String.eqb path "/src/plain" then plainDir
    else if String.eqb path "/src/notes.txt" then TreeSample.reg 420 9 "notes"
    else Image.Broken ("stat " +:+ path +:+ ": no such file or directory") in
  {| Image.stat := look; Image.lstat := look |}.

End MoreSamples.

Section MoreWitnesses.
Import Cmd PullSpec PullTrace Sample MoreSamples.

Lemma getRef_single_flag_witness :
  getRefFromFlags (env [] [plainImg]) (opts "repo/app" "" "" "/tmp/out") (disk "none")
  = (Ok "repo/app", disk "none").
Proof.
  apply (getRef_single_flag (env [] [plainImg]) (opts "repo/app" "" "" "/tmp/out")
           (disk "none")); reflexivity.
Defined.

Lemma getRef_lock_path_witness :
  getRefFromFlags (env [] [bundleImg]) (opts "" "" "/tmp/bundle.lock" "/tmp/out") lockWorld
  = (Ok "index.docker.io/a/bundle@sha256:dd",
     {| files := files lockWorld; events := [EvReadFile "/tmp/bundle.lock"] |}).
Proof.
  apply (getRef_lock_path (env [] [bundleImg]) (opts "" "" "/tmp/bundle.lock" "/tmp/out")
           lockWorld); [discriminate|reflexivity|reflexivity].
Defined.

Lemma no_rewrite_without_bundle_flag_witness :
  exists r fs' new,
    Run (env [] [bundleImg]) (opts "" "" "/tmp/bundle.lock" "/tmp/out") lockWorld
    = (r, {| files := fs'; events := events lockWorld ++ new |}) /\
    Forall (fun ev => rewrites ev = false) new.
Proof.
  apply (no_rewrite_without_bundle_flag (env [] [bundleImg])
           (opts "" "" "/tmp/bundle.lock" "/tmp/out") lockWorld).
  reflexivity.
Defined.

Lemma rewrite_stops_at_malformed_candidate_witness :
  rewriteImageLock (envBad ["/tmp/b@sha256:aa"; "/tmp/b@sha256:cc"])
    (opts "" "/tmp/b" "" "/tmp/out") {| Context_Name := "/tmp/b" |} (disk "bad")
  = (Err "Parsing image URL: gcr.io/b/db",
     {| files := files (disk "bad");
        events := [EvReadFile "/tmp/out/.imgpkg/images.yml"; UILine lineLocating;
                   EvGeneric {| DigestStr := "/tmp/b@sha256:aa" |}] |}).
Proof.
  apply (rewrite_stops_at_malformed_candidate
           (envBad ["/tmp/b@sha256:aa"; "/tmp/b@sha256:cc"])
           (opts "" "/tmp/b" "" "/tmp/out") {| Context_Name := "/tmp/b" |} (disk "bad")
           "bad" lockBad
           [desc "index.docker.io/a/app@sha256:aa" "v1" "app"]
           (desc "gcr.io/b/db" "v2" "db")
           [desc "gcr.io/b/cache@sha256:cc" "v3" "cache"]).
  - vm_compute. reflexivity.
  - reflexivity.
  - reflexivity.
  - constructor; [|constructor].
    exists {| DigestStr := "/tmp/b@sha256:aa" |}. split; reflexivity.
  - reflexivity.
Defined.

Lemma rewrite_needs_lock_document_witness :
  exists msg,
    rewriteImageLock (env [] [bundleImg]) (opts "" "/tmp/b" "" "/tmp/out")
      {| Context_Name := "/tmp/b" |} bareWorld
    = (Err ("Reading image lock file: " +:+ msg),
       {| files := files bareWorld;
          events := [EvReadFile "/tmp/out/.imgpkg/images.yml"] |}).
Proof.
  apply (rewrite_needs_lock_document (env [] [bundleImg]) (opts "" "/tmp/b" "" "/tmp/out")
           {| Context_Name := "/tmp/b" |} bareWorld).
  left. vm_compute. reflexivity.
Defined.

End MoreWitnesses.

Section MoreTarWitnesses.
Import Image TarSpec TarStream TreeSample MoreSamples.

Lemma archive_names_not_excluded_witness :
  ~ In "config" (excludePaths (image ["/src/app"] ["skip"])).
Proof.
  apply (archive_names_not_excluded (image ["/src/app"] ["skip"]) (fsAt 420 5) []
           ["/src/app"] (dirHeader "config" 4096)).
  vm_compute. right. left. reflexivity.
Defined.

Lemma excluded_child_is_passed_over_witness :
  eachName (walkFn (image ["/src/app"] ["skip"]) "/src/app")
    (walk (walkFn (image ["/src/app"] ["skip"]) "/src/app")) "/src/app"
    [("config", Dir (attr 420 5) 4096 None [("a.yml", reg 420 5 "k: v")]);
     ("skip", Dir (attr 420 5) 4096 None
                [("link", File Symlink (attr 511 5) "" None); ("x.txt", reg 420 5 "x")]);
     ("z.txt", reg 420 5 "zzz")]
    {| written := []; infoLog := [] |}
  = eachName (walkFn (image ["/src/app"] ["skip"]) "/src/app")
      (walk (walkFn (image ["/src/app"] ["skip"]) "/src/app")) "/src/app"
      [("config", Dir (attr 420 5) 4096 None [("a.yml", reg 420 5 "k: v")]);
       ("z.txt", reg 420 5 "zzz")]
      {| written := []; infoLog := [] |}.
Proof.
  apply (excluded_child_is_passed_over (image ["/src/app"] ["skip"]) "/src/app" "/src/app"
           [("config", Dir (attr 420 5) 4096 None [("a.yml", reg 420 5 "k: v")])]
           [("z.txt", reg 420 5 "zzz")] "skip"
           (Dir (attr 420 5) 4096 None
              [("link", File Symlink (attr 511 5) "" None); ("x.txt", reg 420 5 "x")])
           "skip" {| written := []; infoLog := [] |}).
  - reflexivity.
  - reflexivity.
  - exact I.
Defined.

Lemma special_entry_rejected_even_if_excluded_witness :
  walk (walkFn (image ["/src/app"] ["skip/link"]) "/src/app") "/src/app/skip/link"
    (File Symlink (attr 511 5) "" None) {| written := []; infoLog := [] |}
  = (Some (Errorf (msgNotRegular "/src/app/skip/link")), {| written := []; infoLog := [] |}).
Proof.
  apply (special_entry_rejected_even_if_excluded (image ["/src/app"] ["skip/link"])
           "/src/app" "/src/app/skip/link" Symlink (attr 511 5) "" None "skip/link"
           {| written := []; infoLog := [] |}).
  - discriminate.
  - reflexivity.
Defined.

Lemma dot_pattern_drops_directory_input_witness :
  createTarballFrom (image ["/src/plain"; "/src/notes.txt"] ["."]) fsMore
    ["/src/plain"; "/src/notes.txt"] {| written := []; infoLog := [] |}
  = createTarballFrom (image ["/src/plain"; "/src/notes.txt"] ["."]) fsMore
      ["/src/notes.txt"] {| written := []; infoLog := [] |}.
Proof.
  apply (dot_pattern_drops_directory_input (image ["/src/plain"; "/src/notes.txt"] ["."])
           fsMore "/src/plain" (attr 493 9) 4096
           [("bin", Dir (attr 493 9) 4096 None [("run.sh", reg 493 9 "#!/bin/sh")]);
            ("readme", reg 420 9 "hello");
            ("tmp", Dir (attr 493 9) 4096 None [("cache", reg 420 9 "c")])]
           ["/src/notes.txt"] {| written := []; infoLog := [] |}); reflexivity.
Defined.


End MoreTarWitnesses.
